(** * srcflib: MySQL account plumbing and group membership scripts

    A shallow embedding of [srcflib/plumbing/mysql.py] and
    [srcflib/scripts/group.py].

    Python strings are modelled as [string] (byte strings; every character
    the code inspects -- the backtick and the two braces -- is ASCII, and no
    byte of a multi-byte UTF-8 sequence collides with an ASCII character).
    Effects (the cursor, the logger, the random source, the operator at the
    terminal, the membership store) are threaded through a small
    state-and-exception monad whose state records a trace of the calls made
    to the outside world. *)

From Stdlib Require Import ZArith Ascii.
From stdpp Require Import base strings gmap.

Local Open Scope Z_scope.

(** ** Python exceptions raised on the modelled paths *)

Inductive exn : Type :=
| LookupError (template : string) (arg : string)
    (* [template.format(arg)]; the rendering of the message is not modelled *)
| IndexError
| ValueError
| Unmodelled
    (* a feature of [str.format] that no template of the package uses *)
| SystemExit.

(** ** String helpers: [str.replace] and [str.format] *)

Module PyStr.

(** [s.replace(old, new)] for a one-character [old]. *)
Fixpoint replace (old : ascii) (new : string) (s : string) : string :=
  match s with
  | EmptyString => EmptyString
  | String c rest =>
      if Ascii.eqb c old then new +:+ replace old new rest
      else String c (replace old new rest)
  end.

Definition emit (piece : string) (r : exn + string) : exn + string :=
  match r with
  | inl e => inl e
  | inr out => inr (piece +:+ out)
  end.

(** [s.format( *args )] on string arguments.  Literal text is copied, the
    doubled braces are the escapes for one brace, [{}] takes the next
    positional argument (IndexError when there is none; surplus arguments are
    ignored), a lone closing brace or a trailing opening brace is a
    ValueError.  The substituted text is not scanned again.  Explicit
    indices, names, conversions and format specs are outside the model. *)
Fixpoint format (s : string) (args : list string) : exn + string :=
  match s with
  | EmptyString => inr EmptyString
  | String c rest =>
      if Ascii.eqb c "{" then
        match rest with
        | EmptyString => inl ValueError
        | String d rest' =>
            if Ascii.eqb d "{" then emit "{" (format rest' args)
            else if Ascii.eqb d "}" then
              match args with
              | [] => inl IndexError
              | a :: args' => emit a (format rest' args')
              end
            else inl Unmodelled
        end
      else if Ascii.eqb c "}" then
        match rest with
        | EmptyString => inl ValueError
        | String d rest' =>
            if Ascii.eqb d "}" then emit "}" (format rest' args)
            else inl ValueError
        end
      else emit (String c EmptyString) (format rest args)
  end.

(** No brace occurs in the text. *)
Fixpoint brace_free (s : string) : bool :=
  match s with
  | EmptyString => true
  | String c rest =>
      negb (Ascii.eqb c "{") && negb (Ascii.eqb c "}") && brace_free rest
  end.

End PyStr.

(** ** Reading a backtick-quoted identifier

    The decoder against which the quoting of [_format] is checked: MySQL
    reads a quoted identifier from the opening backtick to the first backtick
    that is not doubled, a doubled backtick standing for one backtick of the
    name.  [lex_quoted_ident] returns the name and the text left after the
    closing quote. *)

Module Ident.

Definition cons_name (c : ascii) (r : option (string * string))
  : option (string * string) :=
  match r with
  | Some (name, rest) => Some (String c name, rest)
  | None => None
  end.

Fixpoint lex_body (s : string) : option (string * string) :=
  match s with
  | EmptyString => None
  | String c rest =>
      if Ascii.eqb c "`" then
        match rest with
        | EmptyString => Some (EmptyString, EmptyString)
        | String d rest' =>
            if Ascii.eqb d "`" then cons_name "`" (lex_body rest')
            else Some (EmptyString, rest)
        end
      else cons_name c (lex_body rest)
  end.

Definition lex_quoted_ident (s : string) : option (string * string) :=
  match s with
  | EmptyString => None
  | String c rest => if Ascii.eqb c "`" then lex_body rest else None
  end.

(** The text does not begin with a backtick. *)
Definition no_leading_backtick (s : string) : bool :=
  match s with
  | EmptyString => true
  | String c _ => negb (Ascii.eqb c "`")
  end.

End Ident.

(** ** The effect monad: state passing with Python exceptions *)

Definition M (W A : Type) : Type := W -> (exn + A) * W.

Definition ret {W A} (a : A) : M W A := fun w => (inr a, w).

Definition bind {W A B} (m : M W A) (k : A -> M W B) : M W B :=
  fun w =>
    match m w with
    | (inl e, w') => (inl e, w')
    | (inr a, w') => k a w'
    end.

Definition raise {W A} (e : exn) : M W A := fun w => (inl e, w).

(** An expression that may raise but touches no state. *)
Definition lift {W A} (r : exn + A) : M W A := fun w => (r, w).

Notation "'let*' x := m 'in' k" := (bind m (fun x => k))
  (at level 10, x name, m at level 100, k at level 200).

(** ** [srcflib/plumbing/mysql.py] *)

Module MySQL.

(** Modelled from the spec: [Password], [Result] and [State] of
    [srcflib/plumbing/common.py].  A password is an opaque generated secret;
    [str(passwd)] is its text.  A result is a state tag, [success] or
    [unchanged], with an optional payload ([Result(state)] has none). *)
Record Password : Type := mkPassword { password_str : string }.

Inductive State : Type := success | unchanged.

Record Result (T : Type) : Type := mkResult { state : State; value : option T }.
Arguments mkResult {T} _ _.
Arguments state {T} _.
Arguments value {T} _.

(** An argument of [query]: [Union[str, Password]]. *)
Inductive arg : Type :=
| ArgStr (s : string)
| ArgPassword (p : Password).

(** What the module does to the outside world, in order: a call of
    [LOG.debug] with its format and arguments, a call of [cursor.execute]
    with the statement text and the bound parameters. *)
Inductive event : Type :=
| LogDebug (fmt : string) (sql : string) (args : list arg)
| Execute (sql : string) (params : list string).

(** The statements a trace sent to the server, each with its bound
    parameters. *)
Fixpoint executed (t : list event) : list (string * list string) :=
  match t with
  | [] => []
  | Execute sql params :: t' => (sql, params) :: executed t'
  | LogDebug _ _ _ :: t' => executed t'
  end.

(** The world a call runs in: the server behind the cursor, the random
    source behind [Password.new], and the trace so far. *)
Record World (Conn Rng : Type) : Type :=
  mkWorld { conn : Conn; rng : Rng; trace : list event }.
Arguments mkWorld {Conn Rng} _ _ _.
Arguments conn {Conn Rng} _.
Arguments rng {Conn Rng} _.
Arguments trace {Conn Rng} _.

(** [str(arg) if isinstance(arg, Password) else arg] *)
Definition bound_param (a : arg) : string :=
  match a with
  | ArgPassword p => password_str p
  | ArgStr s => s
  end.

(** What [query] leaves in the trace: the debug record, then the
    statement. *)
Definition query_events (sql : string) (args : list arg) : list event :=
  [LogDebug "Query: %r %% %r" sql args; Execute sql (map bound_param args)].

(** [db[0]] on a result row. *)
Definition first_column (row : list string) : exn + string :=
  match row with
  | [] => inl IndexError
  | c :: _ => inr c
  end.

Fixpoint collect {A B} (f : A -> exn + B) (l : list A) : exn + list B :=
  match l with
  | [] => inr []
  | a :: l' =>
      match f a with
      | inl e => inl e
      | inr b =>
          match collect f l' with
          | inl e => inl e
          | inr bs => inr (b :: bs)
          end
      end
  end.

(** The quoting of one literal: the generator expression of [_format]
    (mysql.py, line 18). *)
Definition quote_literal (lit : string) : exn + string :=
  PyStr.format "`{}`" [PyStr.replace "`" "``" lit].

(** [_format(sql, *literals)] (mysql.py, lines 16-19). *)
Definition _format (sql : string) (literals : list string) : exn + string :=
  match collect quote_literal literals with
  | inl e => inl e
  | inr params => PyStr.format sql params
  end.

(** [_truthy(test)] (mysql.py, lines 22-23). *)
Definition _truthy {T} (test : bool) : Result T :=
  if test then mkResult success None else mkResult unchanged None.

(** A template whose literal pieces are separated by one field each:
    [first], then a field and a piece for every element of [pieces]. *)
Fixpoint template (first : string) (pieces : list string) : string :=
  match pieces with
  | [] => first
  | p :: ps => first +:+ "{}" +:+ template p ps
  end.

(** The same pieces with the fields replaced by [params], in order. *)
Fixpoint filled (first : string) (pieces params : list string) : string :=
  match pieces, params with
  | p :: ps, a :: params' => first +:+ a +:+ filled p ps params'
  | _, _ => first
  end.

(** How often a character occurs in a text. *)
Fixpoint occurrences (c : ascii) (s : string) : nat :=
  match s with
  | EmptyString => 0%nat
  | String d rest => ((if Ascii.eqb d c then 1 else 0) + occurrences c rest)%nat
  end.

(** Every statement of a trace was recorded first: the event just before
    an [Execute] is the debug record of [query] for the same statement text,
    and its arguments are the ones that were bound. *)
Definition logged_first (t : list event) : Prop :=
  forall i sql params,
    t !! i = Some (Execute sql params) ->
    exists j args,
      i = S j /\
      t !! j = Some (LogDebug "Query: %r %% %r" sql args) /\
      map bound_param args = params.

Section Cursor.

Context {Conn Rng : Type}.

(** [cursor.execute(sql, params)]: the number of affected rows and the
    server afterwards.  Errors of the driver are not modelled; they would
    propagate unchanged. *)
Variable execute : Conn -> string -> list string -> Z * Conn.

(** Iterating the cursor: the rows of the last result set. *)
Variable fetch : Conn -> list (list string) * Conn.

(** Modelled from the spec: [Password.new()] of [common.py] draws a fresh
    random secret. *)
Variable Password_new : Rng -> Password * Rng.

Local Abbreviation W := (World Conn Rng).

Definition log_debug (fmt sql : string) (args : list arg) : M W unit :=
  fun w => (inr tt, mkWorld (conn w) (rng w) (trace w ++ [LogDebug fmt sql args])).

Definition cursor_execute (sql : string) (params : list string) : M W Z :=
  fun w =>
    let '(n, c) := execute (conn w) sql params in
    (inr n, mkWorld c (rng w) (trace w ++ [Execute sql params])).

Definition cursor_iter : M W (list (list string)) :=
  fun w =>
    let '(rows, c) := fetch (conn w) in
    (inr rows, mkWorld c (rng w) (trace w)).

Definition new_password : M W Password :=
  fun w =>
    let '(p, g) := Password_new (rng w) in
    (inr p, mkWorld (conn w) g (trace w)).

(** [query(cursor, sql, *args)] (mysql.py, lines 26-32): the debug record,
    then the statement; [bool] of the row count. *)
Definition query (sql : string) (args : list arg) : M W bool :=
  let* _ := log_debug "Query: %r %% %r" sql args in
  let* n := cursor_execute sql (map bound_param args) in
  ret (negb (n =? 0)).

(** mysql.py, lines 35-41. *)
Definition create_user (name : string) : M W (Result Password) :=
  let* passwd := new_password in
  let* new := query "CREATE USER IF NOT EXISTS %s@'%%' IDENTIFIED BY %s"
                    [ArgStr name; ArgPassword passwd] in
  ret (if new then mkResult success (Some passwd) else mkResult unchanged None).

(** mysql.py, lines 44-53. *)
Definition reset_password (name : string) : M W (Result Password) :=
  let* passwd := new_password in
  let* reset := query "SET PASSWORD FOR %s@'%%' = %s"
                      [ArgStr name; ArgPassword passwd] in
  if reset then ret (mkResult success (Some passwd))
  else raise (LookupError "No MySQL user {!r} to reset password" name).

(** mysql.py, lines 56-60. *)
Definition drop_user {T} (name : string) : M W (Result T) :=
  let* r := query "DROP USER IF EXISTS %s@'%%'" [ArgStr name] in
  ret (_truthy r).

(** mysql.py, lines 63-67. *)
Definition grant_database {T} (user db : string) : M W (Result T) :=
  let* sql := lift (_format "GRANT ALL ON {}.* TO %s@'%%'" [db]) in
  let* r := query sql [ArgStr user] in
  ret (_truthy r).

(** mysql.py, lines 70-74. *)
Definition revoke_database {T} (user db : string) : M W (Result T) :=
  let* sql := lift (_format "REVOKE ALL ON {}.* FROM %s@'%%'" [db]) in
  let* r := query sql [ArgStr user] in
  ret (_truthy r).

(** mysql.py, lines 77-83: the result of [query] is dropped. *)
Definition create_database {T} (name : string) : M W (Result T) :=
  let* sql := lift (_format "CREATE DATABASE IF NOT EXISTS {}" [name]) in
  let* _ := query sql [] in
  ret (mkResult success None).

(** mysql.py, lines 86-91.  The default of [like] is the match-all
    pattern ["%"]. *)
Definition list_databases (like : string) : M W (list string) :=
  let* _ := query "SHOW DATABASES LIKE %s" [ArgStr like] in
  let* rows := cursor_iter in
  lift (collect first_column rows).

(** mysql.py, lines 94-100: the result of [query] is dropped. *)
Definition drop_database {T} (name : string) : M W (Result T) :=
  let* sql := lift (_format "DROP DATABASE IF EXISTS {}" [name]) in
  let* _ := query sql [] in
  ret (mkResult success None).

(** The operations that report a [Result], as one call type. *)
Inductive operation : Type :=
| CreateUser (name : string)
| ResetPassword (name : string)
| DropUser (name : string)
| GrantDatabase (user db : string)
| RevokeDatabase (user db : string)
| CreateDatabase (name : string)
| DropDatabase (name : string).

Definition call (op : operation) : M W (Result Password) :=
  match op with
  | CreateUser name => create_user name
  | ResetPassword name => reset_password name
  | DropUser name => drop_user name
  | GrantDatabase user db => grant_database user db
  | RevokeDatabase user db => revoke_database user db
  | CreateDatabase name => create_database name
  | DropDatabase name => drop_database name
  end.

(** The world after a caller has made the calls of [ops] one after the
    other, each in the world the one before left behind (a caller that
    catches the lookup error and goes on). *)
Definition session (ops : list operation) (w : W) : W :=
  fold_left (fun w' op => snd (call op w')) ops w.

(** *** The account table of the server

    The server behind the cursor is not part of the package.  The manager
    reads the affected-row count of the user statements as the signal that
    something changed (spec 4.2: user mutations have a reliable
    rows-affected signal).  [accounts] observes the server's users and
    their passwords; each contract says what one statement does to them and
    what it reports, and is a hypothesis wherever a property speaks of users
    existing. *)

Variable accounts : Conn -> gmap string string.

Definition create_user_contract : Prop :=
  forall c name pw,
    let '(n, c') :=
      execute c "CREATE USER IF NOT EXISTS %s@'%%' IDENTIFIED BY %s" [name; pw] in
    match accounts c !! name with
    | None => n <> 0 /\ accounts c' = <[name := pw]> (accounts c)
    | Some _ => n = 0 /\ accounts c' = accounts c
    end.

Definition set_password_contract : Prop :=
  forall c name pw,
    let '(n, c') := execute c "SET PASSWORD FOR %s@'%%' = %s" [name; pw] in
    match accounts c !! name with
    | None => n = 0 /\ accounts c' = accounts c
    | Some _ => n <> 0 /\ accounts c' = <[name := pw]> (accounts c)
    end.

Definition drop_user_contract : Prop :=
  forall c name,
    let '(n, c') := execute c "DROP USER IF EXISTS %s@'%%'" [name] in
    match accounts c !! name with
    | None => n = 0 /\ accounts c' = accounts c
    | Some _ => n <> 0 /\ accounts c' = delete name (accounts c)
    end.

End Cursor.

(** The quoted form of an identifier as the spec words it: every backtick
    of the name doubled, the whole wrapped in backticks. *)
Definition quote_ident (name : string) : string :=
  "`" +:+ PyStr.replace "`" "``" name +:+ "`".

(** *** A small server, to run the operations on

    The account table itself as the connection; the three user statements
    act on it and every other statement reports no row. *)
Module Toy.

Definition execute (c : gmap string string) (sql : string) (params : list string)
  : Z * gmap string string :=
  if String.eqb sql "CREATE USER IF NOT EXISTS %s@'%%' IDENTIFIED BY %s" then
    match params with
    | [name; pw] =>
        match c !! name with
        | None => (1, <[name := pw]> c)
        | Some _ => (0, c)
        end
    | _ => (0, c)
    end
  else if String.eqb sql "SET PASSWORD FOR %s@'%%' = %s" then
    match params with
    | [name; pw] =>
        match c !! name with
        | None => (0, c)
        | Some _ => (1, <[name := pw]> c)
        end
    | _ => (0, c)
    end
  else if String.eqb sql "DROP USER IF EXISTS %s@'%%'" then
    match params with
    | [name] =>
        match c !! name with
        | None => (0, c)
        | Some _ => (1, delete name c)
        end
    | _ => (0, c)
    end
  else (0, c).

Definition fetch (c : gmap string string) : list (list string) * gmap string string :=
  ([], c).

(** A counter as the random source: the n-th password is n times "x". *)
Definition Password_new (g : nat) : Password * nat :=
  (mkPassword (String.concat "" (replicate (S g) "x")), S g).

Definition accounts (c : gmap string string) : gmap string string := c.

Definition start : World (gmap string string) nat := mkWorld ∅ 0%nat [].

(** A server that already knows alice. *)
Definition with_alice : World (gmap string string) nat :=
  mkWorld {[ "alice" := "old" ]} 0%nat [].

End Toy.

End MySQL.

(** ** [srcflib/scripts/group.py] *)

Module Group.

(** The fields of the ORM records the scripts read. *)
Record Member : Type := mkMember { crsid : string; name : string }.

Record Society : Type :=
  mkSociety { society : string; description : string; admin_crsids : gset string }.

(** What a script does to the outside world, in order: a warning printed by
    [error], a prompt of [confirm] with the operator's answer, a call into
    the membership collaborator. *)
Inductive event : Type :=
| Error (msg : string)
| Confirm (prompt : string) (answer : bool)
| AddSocietyAdmin (member : Member) (soc : Society)
| RemoveSocietyAdmin (member : Member) (soc : Society)
| DeleteSociety (soc : Society).

Definition is_mutation (ev : event) : bool :=
  match ev with
  | AddSocietyAdmin _ _ | RemoveSocietyAdmin _ _ | DeleteSociety _ => true
  | Error _ | Confirm _ _ => false
  end.

Definition is_warning (ev : event) : bool :=
  match ev with
  | Error _ => true
  | _ => false
  end.

Definition is_prompt (ev : event) : bool :=
  match ev with
  | Confirm _ _ => true
  | _ => false
  end.

(** The membership record store behind the session, and the trace. *)
Record World (Store : Type) : Type := mkWorld { store : Store; trace : list event }.
Arguments mkWorld {Store} _ _.
Arguments store {Store} _.
Arguments trace {Store} _.

Section Scripts.

Context {Store : Type}.

(** The membership collaborator ([srcflib/tasks/membership.py]), which the
    scripts call and do not implement: each call updates the store. *)
Variable add_society_admin : Store -> Member -> Society -> Store.
Variable remove_society_admin : Store -> Member -> Society -> Store.
Variable delete_society : Store -> Society -> Store.

(** The operator at the terminal: the answer to a prompt, given everything
    shown so far. *)
Variable operator : list event -> string -> bool.

Local Abbreviation W := (World Store).

(** Modelled from the spec: [error(message)] of [scripts/utils.py] prints a
    non-fatal warning to the operator. *)
Definition error (msg : string) : M W unit :=
  fun w => (inr tt, mkWorld (store w) (trace w ++ [Error msg])).

(** Modelled from the spec: [confirm(prompt)] of [scripts/utils.py] blocks
    for an interactive yes/no and aborts the process on no. *)
Definition confirm (prompt : string) : M W unit :=
  fun w =>
    let answer := operator (trace w) prompt in
    let w' := mkWorld (store w) (trace w ++ [Confirm prompt answer]) in
    if answer then (inr tt, w') else (inl SystemExit, w').

Definition membership_add_society_admin (member : Member) (soc : Society) : M W unit :=
  fun w => (inr tt, mkWorld (add_society_admin (store w) member soc)
                            (trace w ++ [AddSocietyAdmin member soc])).

Definition membership_remove_society_admin (member : Member) (soc : Society) : M W unit :=
  fun w => (inr tt, mkWorld (remove_society_admin (store w) member soc)
                            (trace w ++ [RemoveSocietyAdmin member soc])).

Definition membership_delete_society (soc : Society) : M W unit :=
  fun w => (inr tt, mkWorld (delete_society (store w) soc)
                            (trace w ++ [DeleteSociety soc])).

(** group.py, lines 13-23. *)
Definition grant (member : Member) (soc : Society) : M W unit :=
  let* _ :=
    if decide (crsid member ∈ admin_crsids soc) then
      let* msg := lift (PyStr.format "Warning: {} is already an admin of {}"
                                     [crsid member; society soc]) in
      error msg
    else ret tt in
  let* prompt := lift (PyStr.format "Add {} to {}?" [name member; description soc]) in
  let* _ := confirm prompt in
  membership_add_society_admin member soc.

(** group.py, lines 26-38. *)
Definition revoke (member : Member) (soc : Society) : M W unit :=
  let* _ :=
    if decide (crsid member ∉ admin_crsids soc) then
      let* msg := lift (PyStr.format "Warning: {} is not an admin of {}"
                                     [crsid member; society soc]) in
      error msg
    else if decide (admin_crsids soc = {[ crsid member ]}) then
      error "Warning: removing the only remaining admin"
    else ret tt in
  let* prompt := lift (PyStr.format "Remove {} from {}?" [name member; description soc]) in
  let* _ := confirm prompt in
  membership_remove_society_admin member soc.

(** group.py, lines 41-49. *)
Definition delete (soc : Society) : M W unit :=
  let* prompt := lift (PyStr.format "Delete {}?" [description soc]) in
  let* _ := confirm prompt in
  membership_delete_society soc.

(** The events of a run are well ordered when every call into the
    membership collaborator comes after a prompt the operator accepted. *)
Definition confirmed_first (run : list event) : Prop :=
  forall before ev after,
    run = before ++ ev :: after -> is_mutation ev = true ->
    exists prompt, Confirm prompt true ∈ before.

(** *** The shape of a run, for the properties below *)

(** The tail every script shares: prompt, then the call into the
    collaborator if the operator accepted. *)
Definition confirmed_step (w : W) (shown : list event) (prompt : string)
    (mutation : event) (st : Store) : (exn + unit) * W :=
  let answer := operator (trace w ++ shown) prompt in
  (if answer then inr tt else inl SystemExit,
   mkWorld (if answer then st else store w)
           (trace w ++ shown ++
              Confirm prompt answer :: (if answer then [mutation] else []))).

Definition grant_warning (member : Member) (soc : Society) : list event :=
  if decide (crsid member ∈ admin_crsids soc)
  then [Error ("Warning: " +:+ crsid member +:+ " is already an admin of "
               +:+ society soc)]
  else [].

Definition revoke_warning (member : Member) (soc : Society) : list event :=
  if decide (crsid member ∉ admin_crsids soc)
  then [Error ("Warning: " +:+ crsid member +:+ " is not an admin of "
               +:+ society soc)]
  else if decide (admin_crsids soc = {[ crsid member ]})
  then [Error "Warning: removing the only remaining admin"]
  else [].

(** A run is guarded when its events extend the trace, every call into
    the membership collaborator among them follows an accepted prompt, the
    run ends in the abort exactly when the operator refused a prompt, and an
    aborted run has called nothing and left the store as it was. *)
Definition guarded (w : W) (run : (exn + unit) * W) : Prop :=
  exists new,
    trace (snd run) = trace w ++ new /\
    confirmed_first new /\
    (fst run = inl SystemExit <-> exists prompt, Confirm prompt false ∈ new) /\
    (fst run = inl SystemExit ->
       store (snd run) = store w /\
       Forall (fun ev => is_mutation ev = false) new).

(** The events a run added to the trace it started from. *)
Definition events_of (w : W) (run : (exn + unit) * W) : list event :=
  drop (length (trace w)) (trace (snd run)).

(** A run asks once when it prompts exactly once and calls the membership
    collaborator at most once, namely exactly when it returns normally. *)
Definition asks_once (w : W) (run : (exn + unit) * W) : Prop :=
  let new := events_of w run in
  length (List.filter is_prompt new) = 1%nat /\
  (length (List.filter is_mutation new) <= 1)%nat /\
  (fst run = inr tt <-> length (List.filter is_mutation new) = 1%nat).

End Scripts.

(** A store to run the scripts on: the admins of each society. *)
Module Toy.

Definition Store : Type := gmap string (gset string).

Definition add_society_admin (st : Store) (member : Member) (soc : Society) : Store :=
  <[society soc := {[ crsid member ]} ∪ default ∅ (st !! society soc)]> st.

Definition remove_society_admin (st : Store) (member : Member) (soc : Society) : Store :=
  <[society soc := default ∅ (st !! society soc) ∖ {[ crsid member ]}]> st.

Definition delete_society (st : Store) (soc : Society) : Store :=
  base.delete (society soc) st.

Definition always (answer : bool) : list event -> string -> bool :=
  fun _ _ => answer.

Definition ann : Member := mkMember "abc12" "Ann".
Definition chess : Society := mkSociety "chess" "Chess Club" {[ "abc12" ]}.
Definition rowing : Society := mkSociety "rowing" "Rowing" {[ "xyz99"; "abc12" ]}.
Definition no_records : World Store := mkWorld ∅ [].

End Toy.

End Group.

(** * Properties *)

(** ** Formatting and quoting *)

Section FormatFacts.

Import PyStr.

Lemma app_cons (c : ascii) (s t : string) : String c s +:+ t = String c (s +:+ t).
Proof. reflexivity. Qed.

Lemma app_empty_l (s : string) : "" +:+ s = s.
Proof. reflexivity. Qed.

Lemma app_empty_r (s : string) : s +:+ "" = s.
Proof.
  induction s as [|c s IH]; [reflexivity|].
  now rewrite app_cons, IH.
Qed.

Lemma app_assoc_str (a b c : string) : (a +:+ b) +:+ c = a +:+ (b +:+ c).
Proof.
  induction a as [|x a IH]; [reflexivity|].
  now rewrite !app_cons, IH.
Qed.

Lemma emit_empty (r : exn + string) : emit "" r = r.
Proof. now destruct r. Qed.

Lemma emit_emit (a b : string) (r : exn + string) :
  emit a (emit b r) = emit (a +:+ b) r.
Proof. destruct r; simpl; [reflexivity | now rewrite app_assoc_str]. Qed.

(** Literal text before the first brace is copied as it is. *)
Lemma format_literal_prefix (pre s : string) (args : list string) :
  brace_free pre = true ->
  format (pre +:+ s) args = emit pre (format s args).
Proof.
  induction pre as [|c pre IH]; intros Hfree.
  - now rewrite emit_empty.
  - simpl in Hfree.
    apply andb_prop in Hfree as [Hc Hpre].
    apply andb_prop in Hc as [Hl Hr].
    apply negb_true_iff in Hl, Hr.
    rewrite app_cons. cbn [format].
    rewrite Hl, Hr, (IH Hpre), emit_emit.
    reflexivity.
Qed.

Lemma format_brace_free (s : string) (args : list string) :
  brace_free s = true -> format s args = inr s.
Proof.
  intros Hfree.
  pose proof (format_literal_prefix s "" args Hfree) as H.
  rewrite app_empty_r in H. rewrite H. simpl.
  now rewrite app_empty_r.
Qed.

(** One field between two literal pieces. *)
Lemma format_one_field (pre post a : string) (args : list string) :
  brace_free pre = true -> brace_free post = true ->
  format (pre +:+ "{}" +:+ post) (a :: args) = inr (pre +:+ a +:+ post).
Proof.
  intros Hpre Hpost.
  rewrite (format_literal_prefix _ _ _ Hpre).
  change ("{}" +:+ post) with (String "{" (String "}" post)).
  cbn [format]. simpl Ascii.eqb. cbv iota.
  now rewrite (format_brace_free _ _ Hpost).
Qed.

End FormatFacts.

Section QuotingFacts.

Import PyStr Ident MySQL.

(** The generator expression of [_format] produces the quoted form; in
    particular the inner [format] call never raises. *)
Lemma quote_literal_ok (lit : string) : quote_literal lit = inr (quote_ident lit).
Proof.
  unfold quote_literal, quote_ident. cbn [format]. simpl Ascii.eqb. cbv iota.
  cbn [format emit]. now rewrite app_cons, app_empty_l, app_empty_r.
Qed.

(** A template with one field: the quoted literal lands between the two
    literal pieces. *)
Lemma _format_one_field (pre post lit : string) :
  brace_free pre = true -> brace_free post = true ->
  _format (pre +:+ "{}" +:+ post) [lit] = inr (pre +:+ quote_ident lit +:+ post).
Proof.
  intros Hpre Hpost. unfold _format. cbn [collect].
  rewrite quote_literal_ok.
  now apply format_one_field.
Qed.

(** A template without a field is returned as it is, whatever the
    literals. *)
Lemma _format_no_field (sql : string) (literals : list string) :
  brace_free sql = true -> _format sql literals = inr sql.
Proof.
  intros Hfree. unfold _format.
  assert (Hc : exists params, collect quote_literal literals = inr params).
  { induction literals as [|lit l [ps IH]]; [now exists []|].
    exists (quote_ident lit :: ps). cbn [collect].
    now rewrite quote_literal_ok, IH. }
  destruct Hc as [params ->]. now apply format_brace_free.
Qed.

(** Reading back the body of a quoted identifier. *)
Lemma lex_body_quoted (name rest : string) :
  no_leading_backtick rest = true ->
  lex_body (replace "`" "``" name +:+ String "`" rest) = Some (name, rest).
Proof.
  intros Hrest. induction name as [|c name IH].
  - cbn [replace]. rewrite app_empty_l.
    destruct rest as [|d rest']; [reflexivity|].
    cbn [lex_body]. simpl Ascii.eqb at 1. cbv iota.
    cbn [no_leading_backtick] in Hrest. apply negb_true_iff in Hrest.
    now rewrite Hrest.
  - cbn [replace]. destruct (Ascii.eqb c "`") eqn:Hc.
    + apply Ascii.eqb_eq in Hc. subst c.
      rewrite app_assoc_str, !app_cons, app_empty_l.
      cbn [lex_body]. simpl Ascii.eqb. cbv iota.
      now rewrite IH.
    + rewrite app_cons. cbn [lex_body]. rewrite Hc. now rewrite IH.
Qed.

(** The quoted form reads back as the name, and the text after it is left
    untouched. *)
Lemma lex_quote_ident (name rest : string) :
  no_leading_backtick rest = true ->
  lex_quoted_ident (quote_ident name +:+ rest) = Some (name, rest).
Proof.
  intros Hrest. unfold quote_ident.
  rewrite !app_cons, !app_empty_l. cbn [lex_quoted_ident]. simpl Ascii.eqb. cbv iota.
  rewrite app_assoc_str, app_cons, app_empty_l. now apply lex_body_quoted.
Qed.

Lemma quote_ident_inj (a b : string) : quote_ident a = quote_ident b -> a = b.
Proof.
  intros H.
  pose proof (lex_quote_ident a "" eq_refl) as Ha.
  pose proof (lex_quote_ident b "" eq_refl) as Hb.
  rewrite H in Ha. rewrite Ha in Hb. now inversion Hb.
Qed.

End QuotingFacts.

(** ** The database account manager *)

Section ManagerFacts.

Import MySQL.

Context {Conn Rng : Type}.
Variable execute : Conn -> string -> list string -> Z * Conn.
Variable fetch : Conn -> list (list string) * Conn.
Variable Password_new : Rng -> Password * Rng.

Local Abbreviation W := (World Conn Rng).

Lemma query_run (sql : string) (args : list arg) (w : W) :
  query execute sql args w =
    (inr (negb (fst (execute (conn w) sql (map bound_param args)) =? 0)),
     mkWorld (snd (execute (conn w) sql (map bound_param args))) (rng w)
             (trace w ++ query_events sql args)).
Proof.
  unfold query, bind, log_debug, cursor_execute, ret, query_events. cbn.
  destruct (execute (conn w) sql (map bound_param args)) as [n c]. cbn.
  now rewrite <- app_assoc.
Qed.

Lemma create_user_run (name : string) (w : W) :
  let passwd := fst (Password_new (rng w)) in
  let sql := "CREATE USER IF NOT EXISTS %s@'%%' IDENTIFIED BY %s" in
  let served := execute (conn w) sql [name; password_str passwd] in
  create_user execute Password_new name w =
    (inr (if fst served =? 0 then mkResult unchanged None
          else mkResult success (Some passwd)),
     mkWorld (snd served) (snd (Password_new (rng w)))
             (trace w ++ query_events sql [ArgStr name; ArgPassword passwd])).
Proof.
  cbv zeta. unfold create_user, bind at 1, new_password.
  destruct (Password_new (rng w)) as [passwd g]. cbn [fst snd].
  unfold bind. rewrite query_run. cbn.
  now destruct (_ =? 0).
Qed.

Lemma reset_password_run (name : string) (w : W) :
  let passwd := fst (Password_new (rng w)) in
  let sql := "SET PASSWORD FOR %s@'%%' = %s" in
  let served := execute (conn w) sql [name; password_str passwd] in
  reset_password execute Password_new name w =
    (if fst served =? 0
     then inl (LookupError "No MySQL user {!r} to reset password" name)
     else inr (mkResult success (Some passwd)),
     mkWorld (snd served) (snd (Password_new (rng w)))
             (trace w ++ query_events sql [ArgStr name; ArgPassword passwd])).
Proof.
  cbv zeta. unfold reset_password, bind at 1, new_password.
  destruct (Password_new (rng w)) as [passwd g]. cbn [fst snd].
  unfold bind. rewrite query_run. cbn.
  now destruct (_ =? 0).
Qed.

Lemma drop_user_run {T} (name : string) (w : W) :
  let sql := "DROP USER IF EXISTS %s@'%%'" in
  let served := execute (conn w) sql [name] in
  drop_user (T:=T) execute name w =
    (inr (mkResult (if fst served =? 0 then unchanged else success) None),
     mkWorld (snd served) (rng w) (trace w ++ query_events sql [ArgStr name])).
Proof.
  cbv zeta. unfold drop_user, bind. rewrite query_run. cbn.
  now destruct (_ =? 0).
Qed.

(** Rewrites the call of [_format] on a one-field template, split by hand
    into its two literal pieces. *)
Ltac use_template pre post lit :=
  match goal with
  | |- context [_format ?t [lit]] =>
      replace (_format t [lit])
        with (@inr exn string (pre +:+ quote_ident lit +:+ post))
        by (symmetry; exact (_format_one_field pre post lit eq_refl eq_refl))
  end.

Lemma grant_database_run {T} (user db : string) (w : W) :
  let sql := "GRANT ALL ON " +:+ quote_ident db +:+ ".* TO %s@'%%'" in
  let served := execute (conn w) sql [user] in
  grant_database (T:=T) execute user db w =
    (inr (mkResult (if fst served =? 0 then unchanged else success) None),
     mkWorld (snd served) (rng w) (trace w ++ query_events sql [ArgStr user])).
Proof.
  cbv zeta. unfold grant_database, bind at 1, lift.
  use_template "GRANT ALL ON " ".* TO %s@'%%'" db.
  unfold bind. rewrite query_run. cbn.
  now destruct (_ =? 0).
Qed.

Lemma revoke_database_run {T} (user db : string) (w : W) :
  let sql := "REVOKE ALL ON " +:+ quote_ident db +:+ ".* FROM %s@'%%'" in
  let served := execute (conn w) sql [user] in
  revoke_database (T:=T) execute user db w =
    (inr (mkResult (if fst served =? 0 then unchanged else success) None),
     mkWorld (snd served) (rng w) (trace w ++ query_events sql [ArgStr user])).
Proof.
  cbv zeta. unfold revoke_database, bind at 1, lift.
  use_template "REVOKE ALL ON " ".* FROM %s@'%%'" db.
  unfold bind. rewrite query_run. cbn.
  now destruct (_ =? 0).
Qed.

Lemma create_database_run {T} (name : string) (w : W) :
  let sql := "CREATE DATABASE IF NOT EXISTS " +:+ quote_ident name in
  create_database (T:=T) execute name w =
    (inr (mkResult success None),
     mkWorld (snd (execute (conn w) sql [])) (rng w)
             (trace w ++ query_events sql [])).
Proof.
  cbv zeta. unfold create_database, bind at 1, lift.
  use_template "CREATE DATABASE IF NOT EXISTS " "" name.
  rewrite app_empty_r. unfold bind. now rewrite query_run.
Qed.

Lemma drop_database_run {T} (name : string) (w : W) :
  let sql := "DROP DATABASE IF EXISTS " +:+ quote_ident name in
  drop_database (T:=T) execute name w =
    (inr (mkResult success None),
     mkWorld (snd (execute (conn w) sql [])) (rng w)
             (trace w ++ query_events sql [])).
Proof.
  cbv zeta. unfold drop_database, bind at 1, lift.
  use_template "DROP DATABASE IF EXISTS " "" name.
  rewrite app_empty_r. unfold bind. now rewrite query_run.
Qed.

Lemma list_databases_trace (like : string) (w : W) :
  trace (snd (list_databases execute fetch like w)) =
    trace w ++ query_events "SHOW DATABASES LIKE %s" [ArgStr like].
Proof.
  unfold list_databases, bind at 1. rewrite query_run.
  unfold bind, cursor_iter, lift. cbn [conn rng trace].
  now destruct (fetch _) as [rows c].
Qed.

Lemma executed_app (t u : list event) : executed (t ++ u) = executed t ++ executed u.
Proof.
  induction t as [|ev t IH]; [reflexivity|].
  destruct ev; cbn [executed app]; [exact IH | now rewrite IH].
Qed.

Lemma executed_query (t : list event) (sql : string) (args : list arg) :
  executed (t ++ query_events sql args) = executed t ++ [(sql, map bound_param args)].
Proof. now rewrite executed_app. Qed.

(** *** With the account table of the server *)

Variable accounts : Conn -> gmap string string.

Lemma create_user_rows (name pw : string) (c : Conn) :
  create_user_contract execute accounts ->
  let served :=
    execute c "CREATE USER IF NOT EXISTS %s@'%%' IDENTIFIED BY %s" [name; pw] in
  (accounts c !! name = None ->
     fst served <> 0 /\ accounts (snd served) = <[name := pw]> (accounts c)) /\
  (is_Some (accounts c !! name) ->
     fst served = 0 /\ accounts (snd served) = accounts c).
Proof.
  intros Hserver. cbv zeta. specialize (Hserver c name pw).
  destruct (execute c _ _) as [n c']. cbn [fst snd].
  destruct (accounts c !! name) as [old|]; split; intros H; try exact Hserver.
  - discriminate H.
  - now destruct H.
Qed.

Lemma set_password_rows (name pw : string) (c : Conn) :
  set_password_contract execute accounts ->
  let served := execute c "SET PASSWORD FOR %s@'%%' = %s" [name; pw] in
  (accounts c !! name = None ->
     fst served = 0 /\ accounts (snd served) = accounts c) /\
  (is_Some (accounts c !! name) ->
     fst served <> 0 /\ accounts (snd served) = <[name := pw]> (accounts c)).
Proof.
  intros Hserver. cbv zeta. specialize (Hserver c name pw).
  destruct (execute c _ _) as [n c']. cbn [fst snd].
  destruct (accounts c !! name) as [old|]; split; intros H; try exact Hserver.
  - discriminate H.
  - now destruct H.
Qed.

Lemma drop_user_rows (name : string) (c : Conn) :
  drop_user_contract execute accounts ->
  let served := execute c "DROP USER IF EXISTS %s@'%%'" [name] in
  (accounts c !! name = None ->
     fst served = 0 /\ accounts (snd served) = accounts c) /\
  (is_Some (accounts c !! name) ->
     fst served <> 0 /\ accounts (snd served) = delete name (accounts c)).
Proof.
  intros Hserver. cbv zeta. specialize (Hserver c name).
  destruct (execute c _ _) as [n c']. cbn [fst snd].
  destruct (accounts c !! name) as [old|]; split; intros H; try exact Hserver.
  - discriminate H.
  - now destruct H.
Qed.

(** No operation but [reset_password] raises. *)
Lemma only_reset_password_raises (op : operation) (w : W) (e : exn) :
  fst (call execute Password_new op w) = inl e ->
  exists name,
    op = ResetPassword name /\
    e = LookupError "No MySQL user {!r} to reset password" name.
Proof.
  destruct op as [name|name|name|user db|user db|name|name]; cbn [call].
  - rewrite create_user_run. cbn [fst]. now destruct (_ =? 0).
  - rewrite reset_password_run. cbn [fst]. destruct (_ =? 0); [|discriminate].
    intros [= <-]. now exists name.
  - now rewrite drop_user_run.
  - now rewrite grant_database_run.
  - now rewrite revoke_database_run.
  - now rewrite create_database_run.
  - now rewrite drop_database_run.
Qed.

(** *** The claims about the manager *)

(** C1.  For every user name, [create_user] draws one fresh password from
    the random source and sends a single create-if-absent statement with the
    name and the password bound; the result is success carrying that
    password exactly when the statement reports rows affected, and unchanged
    without payload otherwise.  On a server that reports rows exactly when
    it created the user, that is: success when the user was absent (and it
    now exists with that password), unchanged when it existed (and the
    accounts are untouched); a second call with the same name is
    unchanged. *)
Theorem create_user_spec (name : string) (w : W) :
  create_user_contract execute accounts ->
  let passwd := fst (Password_new (rng w)) in
  let sql := "CREATE USER IF NOT EXISTS %s@'%%' IDENTIFIED BY %s" in
  let rows := fst (execute (conn w) sql [name; password_str passwd]) in
  let run := create_user execute Password_new name w in
  let again := create_user execute Password_new name (snd run) in
  rng (snd run) = snd (Password_new (rng w)) /\
  executed (trace (snd run)) =
    executed (trace w) ++ [(sql, [name; password_str passwd])] /\
  (fst run = inr (mkResult success (Some passwd)) <-> rows <> 0) /\
  (fst run = inr (mkResult unchanged None) <-> rows = 0) /\
  (accounts (conn w) !! name = None ->
     fst run = inr (mkResult success (Some passwd)) /\
     accounts (conn (snd run)) = <[name := password_str passwd]> (accounts (conn w))) /\
  (is_Some (accounts (conn w) !! name) ->
     fst run = inr (mkResult unchanged None) /\
     accounts (conn (snd run)) = accounts (conn w)) /\
  fst again = inr (mkResult unchanged None).
Proof.
  intros Hserver. cbv zeta.
  rewrite (create_user_run name (snd _)).
  rewrite !create_user_run. cbn [fst snd conn rng trace].
  set (passwd := fst (Password_new (rng w))).
  set (sql := "CREATE USER IF NOT EXISTS %s@'%%' IDENTIFIED BY %s").
  destruct (create_user_rows name (password_str passwd) (conn w) Hserver)
    as [Habsent Hpresent].
  fold sql in Habsent, Hpresent.
  set (served := execute (conn w) sql [name; password_str passwd]) in *.
  assert (Hthen : is_Some (accounts (snd served) !! name)).
  { destruct (accounts (conn w) !! name) as [old|] eqn:Hacc.
    - destruct Hpresent as [_ ->]; [by eexists|]. rewrite Hacc. by eexists.
    - destruct (Habsent eq_refl) as [_ ->]. rewrite lookup_insert_eq. by eexists. }
  split_and!.
  - reflexivity.
  - apply executed_query.
  - destruct (fst served =? 0) eqn:E.
    + apply Z.eqb_eq in E. split; [discriminate | congruence].
    + apply Z.eqb_neq in E. now split.
  - destruct (fst served =? 0) eqn:E.
    + apply Z.eqb_eq in E. now split.
    + apply Z.eqb_neq in E. split; [discriminate | congruence].
  - intros H. destruct (Habsent H) as [Hne Hacc]. split; [|exact Hacc].
    apply Z.eqb_neq in Hne. now rewrite Hne.
  - intros H. destruct (Hpresent H) as [Hz Hacc]. split; [|exact Hacc].
    now rewrite Hz.
  - set (passwd' := fst (Password_new _)).
    destruct (create_user_rows name (password_str passwd') (snd served) Hserver)
      as [_ Hagain].
    destruct (Hagain Hthen) as [Hz _]. fold sql in Hz. now rewrite Hz.
Qed.

(** C2.  On a server where the set-password statement reports a row exactly
    when the user exists, [reset_password] raises the lookup error if and
    only if no user of that name exists, and then no row was affected and
    no password changed; when the user exists it returns success carrying
    the newly generated password, which is now the user's.  No other
    operation that reports a [Result] raises: whenever a call raises, it is
    a [reset_password] and the error is this lookup error. *)
Theorem reset_password_spec (name : string) (w : W) :
  set_password_contract execute accounts ->
  let passwd := fst (Password_new (rng w)) in
  let sql := "SET PASSWORD FOR %s@'%%' = %s" in
  let rows := fst (execute (conn w) sql [name; password_str passwd]) in
  let run := reset_password execute Password_new name w in
  (fst run = inl (LookupError "No MySQL user {!r} to reset password" name) <->
     accounts (conn w) !! name = None) /\
  (accounts (conn w) !! name = None ->
     rows = 0 /\ accounts (conn (snd run)) = accounts (conn w)) /\
  (is_Some (accounts (conn w) !! name) ->
     fst run = inr (mkResult success (Some passwd)) /\
     accounts (conn (snd run)) = <[name := password_str passwd]> (accounts (conn w))) /\
  (forall (op : operation) (w0 : W) (e : exn),
     fst (call execute Password_new op w0) = inl e ->
     exists user,
       op = ResetPassword user /\
       e = LookupError "No MySQL user {!r} to reset password" user).
Proof.
  intros Hserver. cbv zeta.
  rewrite !reset_password_run. cbn [fst snd conn].
  set (passwd := fst (Password_new (rng w))).
  set (sql := "SET PASSWORD FOR %s@'%%' = %s").
  destruct (set_password_rows name (password_str passwd) (conn w) Hserver)
    as [Habsent Hpresent].
  fold sql in Habsent, Hpresent.
  set (served := execute (conn w) sql [name; password_str passwd]) in *.
  split; [|split; [|split]].
  - split.
    + intros Hraise. destruct (accounts (conn w) !! name) as [old|] eqn:Hacc;
        [|reflexivity].
      destruct Hpresent as [Hne _]; [by eexists|].
      apply Z.eqb_neq in Hne. rewrite Hne in Hraise. discriminate.
    + intros Hacc. destruct (Habsent Hacc) as [-> _]. reflexivity.
  - exact Habsent.
  - intros Hsome. destruct (Hpresent Hsome) as [Hne Hacc]. split; [|exact Hacc].
    apply Z.eqb_neq in Hne. now rewrite Hne.
  - intros op w0 e. apply only_reset_password_raises.
Qed.

(** C3.  For every database name, backticks included, the helper embeds the
    name into the statement text as the name with every backtick doubled,
    wrapped in backticks: the quoted form reads back as exactly the name,
    leaving exactly the rest of the template, in each statement that embeds
    one.  The values (user names, passwords, patterns) are bound
    parameters of a statement whose text does not depend on them. *)
Theorem identifier_quoting (T : Type) (user db name like : string) (w : W) :
  let passwd := fst (Password_new (rng w)) in
  quote_literal db = inr (quote_ident db) /\
  Ident.lex_quoted_ident (quote_ident db +:+ ".* TO %s@'%%'") =
    Some (db, ".* TO %s@'%%'") /\
  Ident.lex_quoted_ident (quote_ident db +:+ ".* FROM %s@'%%'") =
    Some (db, ".* FROM %s@'%%'") /\
  Ident.lex_quoted_ident (quote_ident db) = Some (db, "") /\
  executed (trace (snd (grant_database (T:=T) execute user db w))) =
    executed (trace w) ++
      [("GRANT ALL ON " +:+ quote_ident db +:+ ".* TO %s@'%%'", [user])] /\
  executed (trace (snd (revoke_database (T:=T) execute user db w))) =
    executed (trace w) ++
      [("REVOKE ALL ON " +:+ quote_ident db +:+ ".* FROM %s@'%%'", [user])] /\
  executed (trace (snd (create_database (T:=T) execute db w))) =
    executed (trace w) ++
      [("CREATE DATABASE IF NOT EXISTS " +:+ quote_ident db, [])] /\
  executed (trace (snd (drop_database (T:=T) execute db w))) =
    executed (trace w) ++
      [("DROP DATABASE IF EXISTS " +:+ quote_ident db, [])] /\
  executed (trace (snd (create_user execute Password_new name w))) =
    executed (trace w) ++
      [("CREATE USER IF NOT EXISTS %s@'%%' IDENTIFIED BY %s",
        [name; password_str passwd])] /\
  executed (trace (snd (reset_password execute Password_new name w))) =
    executed (trace w) ++
      [("SET PASSWORD FOR %s@'%%' = %s", [name; password_str passwd])] /\
  executed (trace (snd (drop_user (T:=T) execute name w))) =
    executed (trace w) ++ [("DROP USER IF EXISTS %s@'%%'", [name])] /\
  executed (trace (snd (list_databases execute fetch like w))) =
    executed (trace w) ++ [("SHOW DATABASES LIKE %s", [like])].
Proof.
  cbv zeta.
  rewrite grant_database_run, revoke_database_run, create_database_run,
    drop_database_run, create_user_run, reset_password_run, drop_user_run,
    list_databases_trace.
  cbn [snd trace]. rewrite !executed_query. cbn [map bound_param].
  split_and!; try reflexivity; try apply quote_literal_ok;
    try (now apply lex_quote_ident).
  rewrite <- (app_empty_r (quote_ident db)) at 1. now apply lex_quote_ident.
Qed.

(** C4.  [create_database] and [drop_database] return success, without
    payload, on every server, whatever row count its statements report; in
    particular a second [create_database] (or [drop_database]) with the same
    name returns success again, not unchanged. *)
Theorem database_always_success (T : Type) (name : string) (w : W) :
  let created := create_database (T:=T) execute name w in
  let dropped := drop_database (T:=T) execute name w in
  fst created = inr (mkResult success None) /\
  fst (create_database (T:=T) execute name (snd created)) =
    inr (mkResult success None) /\
  fst dropped = inr (mkResult success None) /\
  fst (drop_database (T:=T) execute name (snd dropped)) =
    inr (mkResult success None).
Proof.
  cbv zeta. now rewrite !create_database_run, !drop_database_run.
Qed.

(** C5.  For every user and database, [grant_database] returns success
    exactly when the grant statement reports rows affected and unchanged
    exactly when it reports none, and so does [revoke_database] with the
    revoke statement; neither result carries a payload. *)
Theorem grant_revoke_report (T : Type) (user db : string) (w : W) :
  let granted :=
    fst (execute (conn w)
           ("GRANT ALL ON " +:+ quote_ident db +:+ ".* TO %s@'%%'") [user]) in
  let revoked :=
    fst (execute (conn w)
           ("REVOKE ALL ON " +:+ quote_ident db +:+ ".* FROM %s@'%%'") [user]) in
  (exists st,
     fst (grant_database (T:=T) execute user db w) = inr (mkResult st None) /\
     (st = success <-> granted <> 0) /\ (st = unchanged <-> granted = 0)) /\
  (exists st,
     fst (revoke_database (T:=T) execute user db w) = inr (mkResult st None) /\
     (st = success <-> revoked <> 0) /\ (st = unchanged <-> revoked = 0)).
Proof.
  cbv zeta. rewrite grant_database_run, revoke_database_run. cbn [fst].
  split; eexists; (split; [reflexivity|]);
    destruct (_ =? 0) eqn:E;
    (apply Z.eqb_eq in E || apply Z.eqb_neq in E);
    repeat split; intros; congruence.
Qed.

(** C6.  On a server where the drop statement reports a row exactly when it
    dropped a user, [drop_user] returns success exactly when the user was
    present (and the user is then gone) and unchanged exactly when it was
    absent; whatever the start, an immediately following call with the same
    name returns unchanged, so from a state with the user the two calls
    give success, then unchanged. *)
Theorem drop_user_idempotent (T : Type) (name : string) (w : W) :
  drop_user_contract execute accounts ->
  let first := drop_user (T:=T) execute name w in
  let second := drop_user (T:=T) execute name (snd first) in
  (fst first = inr (mkResult success None) <->
     is_Some (accounts (conn w) !! name)) /\
  (fst first = inr (mkResult unchanged None) <->
     accounts (conn w) !! name = None) /\
  accounts (conn (snd first)) !! name = None /\
  fst second = inr (mkResult unchanged None) /\
  accounts (conn (snd second)) = accounts (conn (snd first)).
Proof.
  intros Hserver. cbv zeta.
  rewrite (drop_user_run name (snd _)). rewrite !drop_user_run.
  cbn [fst snd conn].
  set (sql := "DROP USER IF EXISTS %s@'%%'").
  destruct (drop_user_rows name (conn w) Hserver) as [Habsent Hpresent].
  fold sql in Habsent, Hpresent.
  set (served := execute (conn w) sql [name]) in *.
  assert (Hgone : accounts (snd served) !! name = None).
  { destruct (accounts (conn w) !! name) as [old|] eqn:Hacc.
    - destruct Hpresent as [_ ->]; [by eexists|]. apply lookup_delete_eq.
    - destruct (Habsent eq_refl) as [_ ->]. exact Hacc. }
  destruct (drop_user_rows name (snd served) Hserver) as [Hagain _].
  fold sql in Hagain. destruct (Hagain Hgone) as [Hz Hsame].
  rewrite Hz. cbn [Z.eqb].
  split_and!; try assumption; try reflexivity.
  - split.
    + intros Hres. destruct (accounts (conn w) !! name) as [old|] eqn:Hacc;
        [by eexists|].
      destruct (Habsent eq_refl) as [Hz' _]. rewrite Hz' in Hres. discriminate.
    + intros Hsome. destruct (Hpresent Hsome) as [Hne _].
      apply Z.eqb_neq in Hne. now rewrite Hne.
  - split.
    + intros Hres. destruct (accounts (conn w) !! name) as [old|] eqn:Hacc;
        [|reflexivity].
      destruct Hpresent as [Hne _]; [by eexists|].
      apply Z.eqb_neq in Hne. rewrite Hne in Hres. discriminate.
    + intros Hnone. destruct (Habsent Hnone) as [-> _]. reflexivity.
Qed.

(** C10.  On every call of [create_user] and of [reset_password] the trace
    grows by exactly two events: first the debug record of [query], whose
    argument tuple holds the user name and the freshly generated password
    object itself, then the statement with the password's text bound.  The
    same password is the payload of the result whenever there is one. *)
Theorem password_reaches_logger (name : string) (w : W) :
  let passwd := fst (Password_new (rng w)) in
  let created := create_user execute Password_new name w in
  let reset := reset_password execute Password_new name w in
  trace (snd created) =
    trace w ++
      [LogDebug "Query: %r %% %r"
         "CREATE USER IF NOT EXISTS %s@'%%' IDENTIFIED BY %s"
         [ArgStr name; ArgPassword passwd];
       Execute "CREATE USER IF NOT EXISTS %s@'%%' IDENTIFIED BY %s"
         [name; password_str passwd]] /\
  trace (snd reset) =
    trace w ++
      [LogDebug "Query: %r %% %r" "SET PASSWORD FOR %s@'%%' = %s"
         [ArgStr name; ArgPassword passwd];
       Execute "SET PASSWORD FOR %s@'%%' = %s" [name; password_str passwd]] /\
  (forall r p, fst created = inr r -> value r = Some p -> p = passwd) /\
  (forall r, fst reset = inr r -> value r = Some passwd).
Proof.
  cbv zeta. rewrite create_user_run, reset_password_run. cbn [fst snd trace].
  split_and!; try reflexivity.
  - intros r p. destruct (_ =? 0); intros [= <-]; cbn; congruence.
  - intros r. destruct (_ =? 0); [discriminate|]. now intros [= <-].
Qed.

End ManagerFacts.

(** *** The manager on the small server *)

Section ToyServer.

Import MySQL.

Lemma toy_create_user_contract : create_user_contract Toy.execute Toy.accounts.
Proof.
  intros c name pw. unfold Toy.execute, Toy.accounts. cbn [String.eqb].
  now destruct (c !! name).
Qed.

Lemma toy_set_password_contract : set_password_contract Toy.execute Toy.accounts.
Proof.
  intros c name pw. unfold Toy.execute, Toy.accounts.
  now destruct (c !! name).
Qed.

Lemma toy_drop_user_contract : drop_user_contract Toy.execute Toy.accounts.
Proof.
  intros c name. unfold Toy.execute, Toy.accounts.
  now destruct (c !! name).
Qed.

(** Creating alice on the empty server succeeds with the first password;
    creating her again is unchanged. *)
Lemma create_user_spec_witness :
  create_user_contract Toy.execute Toy.accounts /\
  fst (create_user Toy.execute Toy.Password_new "alice" Toy.start) =
    inr (mkResult success (Some (mkPassword "x"))) /\
  fst (create_user Toy.execute Toy.Password_new "alice"
         (snd (create_user Toy.execute Toy.Password_new "alice" Toy.start))) =
    inr (mkResult unchanged None).
Proof.
  split; [exact toy_create_user_contract|].
  pose proof (create_user_spec Toy.execute Toy.Password_new Toy.accounts
                "alice" Toy.start toy_create_user_contract) as H.
  cbv zeta in H. destruct H as (_ & _ & _ & _ & Habsent & _ & Hagain).
  split; [exact (proj1 (Habsent eq_refl)) | exact Hagain].
Defined.

(** Resetting bob on the empty server raises; resetting alice where she
    exists succeeds with the new password. *)
Lemma reset_password_spec_witness :
  set_password_contract Toy.execute Toy.accounts /\
  fst (reset_password Toy.execute Toy.Password_new "bob" Toy.start) =
    inl (LookupError "No MySQL user {!r} to reset password" "bob") /\
  fst (reset_password Toy.execute Toy.Password_new "alice" Toy.with_alice) =
    inr (mkResult success (Some (mkPassword "x"))).
Proof.
  split; [exact toy_set_password_contract|].
  pose proof (reset_password_spec Toy.execute Toy.Password_new Toy.accounts
                "bob" Toy.start toy_set_password_contract) as Hbob.
  pose proof (reset_password_spec Toy.execute Toy.Password_new Toy.accounts
                "alice" Toy.with_alice toy_set_password_contract) as Halice.
  cbv zeta in Hbob, Halice.
  destruct Hbob as ([_ Hraise] & _). destruct Halice as (_ & _ & Hok & _).
  split; [exact (Hraise eq_refl)|].
  apply Hok. now exists "old".
Defined.

(** Dropping alice where she exists: success, then unchanged. *)
Lemma drop_user_idempotent_witness :
  drop_user_contract Toy.execute Toy.accounts /\
  fst (drop_user (T:=unit) Toy.execute "alice" Toy.with_alice) =
    inr (mkResult success None) /\
  fst (drop_user (T:=unit) Toy.execute "alice"
         (snd (drop_user (T:=unit) Toy.execute "alice" Toy.with_alice))) =
    inr (mkResult unchanged None).
Proof.
  split; [exact toy_drop_user_contract|].
  pose proof (drop_user_idempotent Toy.execute Toy.accounts unit
                "alice" Toy.with_alice toy_drop_user_contract) as H.
  cbv zeta in H. destruct H as ([_ Hfirst] & _ & _ & Hsecond & _).
  split; [|exact Hsecond].
  apply Hfirst. now exists "old".
Defined.

End ToyServer.

(** ** The group membership scripts *)

Section ScriptFacts.

Import Group.

Context {Store : Type}.
Variable add_society_admin : Store -> Member -> Society -> Store.
Variable remove_society_admin : Store -> Member -> Society -> Store.
Variable delete_society : Store -> Society -> Store.
Variable operator : list event -> string -> bool.

Local Abbreviation W := (World Store).

(** The messages, formatted. *)
Lemma already_admin_message (who where_ : string) :
  PyStr.format "Warning: {} is already an admin of {}" [who; where_] =
    inr ("Warning: " +:+ who +:+ " is already an admin of " +:+ where_).
Proof.
  transitivity (@inr exn string
    ("Warning: " +:+ who +:+ " is already an admin of " +:+ where_ +:+ ""));
    [reflexivity | now rewrite app_empty_r].
Qed.

Lemma not_admin_message (who where_ : string) :
  PyStr.format "Warning: {} is not an admin of {}" [who; where_] =
    inr ("Warning: " +:+ who +:+ " is not an admin of " +:+ where_).
Proof.
  transitivity (@inr exn string
    ("Warning: " +:+ who +:+ " is not an admin of " +:+ where_ +:+ ""));
    [reflexivity | now rewrite app_empty_r].
Qed.

Lemma add_prompt (who what : string) :
  PyStr.format "Add {} to {}?" [who; what] =
    inr ("Add " +:+ who +:+ " to " +:+ what +:+ "?").
Proof. reflexivity. Qed.

Lemma remove_prompt (who what : string) :
  PyStr.format "Remove {} from {}?" [who; what] =
    inr ("Remove " +:+ who +:+ " from " +:+ what +:+ "?").
Proof. reflexivity. Qed.

Lemma delete_prompt (what : string) :
  PyStr.format "Delete {}?" [what] = inr ("Delete " +:+ what +:+ "?").
Proof. reflexivity. Qed.

Lemma grant_run (member : Member) (soc : Society) (w : W) :
  grant add_society_admin operator member soc w =
    confirmed_step operator w (grant_warning member soc)
      ("Add " +:+ name member +:+ " to " +:+ description soc +:+ "?")
      (AddSocietyAdmin member soc)
      (add_society_admin (store w) member soc).
Proof.
  unfold grant, grant_warning, confirmed_step, bind at 1.
  destruct (decide (crsid member ∈ admin_crsids soc)).
  - unfold bind at 1, lift. rewrite already_admin_message.
    unfold error, bind at 1, lift. rewrite add_prompt.
    unfold bind, confirm, membership_add_society_admin. cbn [store trace].
    destruct (operator _ _); cbn [store trace];
      now rewrite <- ?app_assoc.
  - unfold ret, bind at 1, lift. rewrite add_prompt.
    unfold bind, confirm, membership_add_society_admin. cbn [store trace].
    rewrite !app_nil_r.
    destruct (operator _ _); cbn [store trace];
      now rewrite <- ?app_assoc.
Qed.

Lemma revoke_run (member : Member) (soc : Society) (w : W) :
  revoke remove_society_admin operator member soc w =
    confirmed_step operator w (revoke_warning member soc)
      ("Remove " +:+ name member +:+ " from " +:+ description soc +:+ "?")
      (RemoveSocietyAdmin member soc)
      (remove_society_admin (store w) member soc).
Proof.
  unfold revoke, revoke_warning, confirmed_step, bind at 1.
  destruct (decide (crsid member ∉ admin_crsids soc));
    [|destruct (decide (admin_crsids soc = {[ crsid member ]}))].
  - unfold bind at 1, lift. rewrite not_admin_message.
    unfold error, bind at 1, lift. rewrite remove_prompt.
    unfold bind, confirm, membership_remove_society_admin. cbn [store trace].
    destruct (operator _ _); cbn [store trace];
      now rewrite <- ?app_assoc.
  - unfold error, bind at 1, lift. rewrite remove_prompt.
    unfold bind, confirm, membership_remove_society_admin. cbn [store trace].
    destruct (operator _ _); cbn [store trace];
      now rewrite <- ?app_assoc.
  - unfold ret, bind at 1, lift. rewrite remove_prompt.
    unfold bind, confirm, membership_remove_society_admin. cbn [store trace].
    rewrite !app_nil_r.
    destruct (operator _ _); cbn [store trace];
      now rewrite <- ?app_assoc.
Qed.

Lemma delete_run (soc : Society) (w : W) :
  delete delete_society operator soc w =
    confirmed_step operator w [] ("Delete " +:+ description soc +:+ "?")
      (DeleteSociety soc) (delete_society (store w) soc).
Proof.
  unfold delete, confirmed_step, bind at 1, lift. rewrite delete_prompt.
  unfold bind, confirm, membership_delete_society. cbn [store trace].
  rewrite !app_nil_r.
  destruct (operator _ _); cbn [store trace]; now rewrite <- ?app_assoc.
Qed.

Lemma grant_warning_shape (member : Member) (soc : Society) :
  Forall (fun ev => is_warning ev = true) (grant_warning member soc) /\
  (grant_warning member soc <> [] <-> crsid member ∈ admin_crsids soc).
Proof.
  unfold grant_warning. destruct (decide _) as [Hin|Hout].
  - split; [now repeat constructor | now split].
  - split; [constructor | split; [congruence | intros; contradiction]].
Qed.

Lemma revoke_warning_shape (member : Member) (soc : Society) :
  Forall (fun ev => is_warning ev = true) (revoke_warning member soc) /\
  (revoke_warning member soc <> [] <->
     crsid member ∉ admin_crsids soc \/ admin_crsids soc = {[ crsid member ]}).
Proof.
  unfold revoke_warning.
  destruct (decide (crsid member ∉ admin_crsids soc)) as [Hout|Hin];
    [|destruct (decide (admin_crsids soc = {[ crsid member ]})) as [Hsole|Hmore]].
  - split; [now repeat constructor | split; [now left | congruence]].
  - split; [now repeat constructor | split; [now right | congruence]].
  - split; [constructor | split; [congruence | intros [?|?]; contradiction]].
Qed.

(** In the shared tail, the call into the collaborator comes after an
    accepted prompt. *)
Lemma confirmed_first_step (shown : list event) (prompt : string)
    (answer : bool) (mutation : event) :
  Forall (fun ev => is_warning ev = true) shown ->
  confirmed_first
    (shown ++ Confirm prompt answer :: (if answer then [mutation] else [])).
Proof.
  intros Hshown.
  induction Hshown as [|x ws Hx Hws IH]; intros before ev after Heq Hmut.
  - destruct before as [|b bs]; cbn in Heq.
    + injection Heq as <- _. discriminate Hmut.
    + injection Heq as <- Htail. destruct answer.
      * exists prompt. apply elem_of_cons. now left.
      * destruct bs; discriminate Htail.
  - destruct before as [|b bs]; cbn in Heq.
    + injection Heq as <- _. destruct x; discriminate.
    + injection Heq as <- Htail.
      destruct (IH bs ev after Htail Hmut) as [p Hp].
      exists p. apply elem_of_cons. now right.
Qed.

Lemma confirmed_step_guarded (w : W) (shown : list event) (prompt : string)
    (mutation : event) (st : Store) :
  Forall (fun ev => is_warning ev = true) shown ->
  is_mutation mutation = true ->
  guarded w (confirmed_step operator w shown prompt mutation st).
Proof.
  intros Hshown Hmut. unfold confirmed_step.
  set (answer := operator (trace w ++ shown) prompt).
  exists (shown ++ Confirm prompt answer :: (if answer then [mutation] else [])).
  cbn [fst snd trace store].
  assert (Hquiet : Forall (fun ev => is_mutation ev = false) shown).
  { eapply Forall_impl; [exact Hshown|]. now intros [] H. }
  split_and!.
  - reflexivity.
  - now apply confirmed_first_step.
  - destruct answer; split.
    + discriminate.
    + intros [p Hp]. apply elem_of_app in Hp as [Hp|Hp].
      * rewrite Forall_forall in Hshown. now apply Hshown in Hp.
      * apply elem_of_cons in Hp as [Hp|Hp]; [discriminate Hp|].
        apply list_elem_of_singleton in Hp. subst mutation. discriminate Hmut.
    + intros _. exists prompt. apply elem_of_app. right.
      apply elem_of_cons. now left.
    + reflexivity.
  - destruct answer; [discriminate|]. intros _. split; [reflexivity|].
    apply Forall_app. split; [exact Hquiet | now repeat constructor].
Qed.

(** *** The claims about the scripts *)

(** C7.  In each of the three scripts the call into the membership
    collaborator never comes before the prompt has returned with the
    operator's consent; when the confirmation aborts the script ends with
    no call made and the membership store as it was. *)
Theorem mutation_after_confirmation (member : Member) (soc : Society) (w : W) :
  guarded w (grant add_society_admin operator member soc w) /\
  guarded w (revoke remove_society_admin operator member soc w) /\
  guarded w (delete delete_society operator soc w).
Proof.
  rewrite grant_run, revoke_run, delete_run.
  split_and!; apply confirmed_step_guarded; try reflexivity.
  - apply grant_warning_shape.
  - apply revoke_warning_shape.
  - constructor.
Qed.

(** C8.  The revoke script prints a warning exactly when the member's
    crsid is not among the society's admins or the admins are just that
    member; with or without the warning it goes on to the prompt, and once
    the operator accepts it hands the removal to the collaborator. *)
Theorem revoke_warns (member : Member) (soc : Society) (w : W) :
  let run := revoke remove_society_admin operator member soc w in
  exists (warning : list event) (prompt : string),
    let answer := operator (trace w ++ warning) prompt in
    trace (snd run) =
      trace w ++ warning ++
        Confirm prompt answer ::
          (if answer then [RemoveSocietyAdmin member soc] else []) /\
    Forall (fun ev => is_warning ev = true) warning /\
    (warning <> [] <->
       crsid member ∉ admin_crsids soc \/
       admin_crsids soc = {[ crsid member ]}) /\
    fst run = (if answer then inr tt else inl SystemExit) /\
    store (snd run) =
      (if answer then remove_society_admin (store w) member soc else store w).
Proof.
  cbv zeta. rewrite revoke_run.
  exists (revoke_warning member soc),
    ("Remove " +:+ name member +:+ " from " +:+ description soc +:+ "?").
  unfold confirmed_step. cbn [fst snd trace store].
  split_and!; try reflexivity; apply revoke_warning_shape.
Qed.

(** C9.  The grant script prints a warning exactly when the member's crsid
    is already among the society's admins; with or without the warning it
    goes on to the prompt, and once the operator accepts it hands the
    addition to the collaborator. *)
Theorem grant_warns (member : Member) (soc : Society) (w : W) :
  let run := grant add_society_admin operator member soc w in
  exists (warning : list event) (prompt : string),
    let answer := operator (trace w ++ warning) prompt in
    trace (snd run) =
      trace w ++ warning ++
        Confirm prompt answer ::
          (if answer then [AddSocietyAdmin member soc] else []) /\
    Forall (fun ev => is_warning ev = true) warning /\
    (warning <> [] <-> crsid member ∈ admin_crsids soc) /\
    fst run = (if answer then inr tt else inl SystemExit) /\
    store (snd run) =
      (if answer then add_society_admin (store w) member soc else store w).
Proof.
  cbv zeta. rewrite grant_run.
  exists (grant_warning member soc),
    ("Add " +:+ name member +:+ " to " +:+ description soc +:+ "?").
  unfold confirmed_step. cbn [fst snd trace store].
  split_and!; try reflexivity; apply grant_warning_shape.
Qed.

End ScriptFacts.

(** ** The definitions on concrete inputs *)

Section Examples.

Import MySQL.

Example format_escapes :
  PyStr.format "{{}} and {}" ["x"] = inr "{} and x".
Proof. reflexivity. Qed.

Example format_is_not_rescanned :
  PyStr.format "a{}b" ["{}"; "y"] = inr "a{}b".
Proof. reflexivity. Qed.

Example format_missing_argument : PyStr.format "{} {}" ["x"] = inl IndexError.
Proof. reflexivity. Qed.

Example format_lone_brace : PyStr.format "a}b" [] = inl ValueError.
Proof. reflexivity. Qed.

Example quote_foo_bar : quote_ident "foo`bar" = "`foo``bar`".
Proof. reflexivity. Qed.

Example format_foo_bar :
  _format "CREATE DATABASE IF NOT EXISTS {}" ["foo`bar"] =
    inr "CREATE DATABASE IF NOT EXISTS `foo``bar`".
Proof. reflexivity. Qed.

(** A name that tries to close the quote and start a second statement is
    read back whole. *)
Example lex_hostile_name :
  Ident.lex_quoted_ident (quote_ident "x`; DROP DATABASE `y" +:+ ".* TO %s@'%%'") =
    Some ("x`; DROP DATABASE `y", ".* TO %s@'%%'").
Proof. reflexivity. Qed.

(** Without the doubling the same name would end at its first backtick. *)
Example lex_unescaped_name :
  Ident.lex_quoted_ident "`x`; DROP DATABASE `y`.* TO %s@'%%'" =
    Some ("x", "; DROP DATABASE `y`.* TO %s@'%%'").
Proof. reflexivity. Qed.

Example grant_on_toy :
  grant_database (T:=unit) Toy.execute "alice" "foo`bar" Toy.start =
    (inr (mkResult unchanged None),
     mkWorld ∅ 0%nat
       [LogDebug "Query: %r %% %r" "GRANT ALL ON `foo``bar`.* TO %s@'%%'"
          [ArgStr "alice"];
        Execute "GRANT ALL ON `foo``bar`.* TO %s@'%%'" ["alice"]]).
Proof. reflexivity. Qed.

Example create_user_on_toy :
  create_user Toy.execute Toy.Password_new "alice" Toy.start =
    (inr (mkResult success (Some (mkPassword "x"))),
     mkWorld {[ "alice" := "x" ]} 1%nat
       [LogDebug "Query: %r %% %r"
          "CREATE USER IF NOT EXISTS %s@'%%' IDENTIFIED BY %s"
          [ArgStr "alice"; ArgPassword (mkPassword "x")];
        Execute "CREATE USER IF NOT EXISTS %s@'%%' IDENTIFIED BY %s"
          ["alice"; "x"]]).
Proof. reflexivity. Qed.

Example list_databases_empty_row :
  fst (list_databases Toy.execute (fun c => ([["a"]; []], c)) "%" Toy.start) =
    inl IndexError.
Proof. reflexivity. Qed.

Import Group.

Example grant_already_admin :
  Group.trace
    (snd (grant Group.Toy.add_society_admin (Group.Toy.always true) Toy.ann Toy.chess Toy.no_records)) =
    [Error "Warning: abc12 is already an admin of chess";
     Confirm "Add Ann to Chess Club?" true;
     AddSocietyAdmin Toy.ann Toy.chess].
Proof. reflexivity. Qed.

Example revoke_sole_admin_refused :
  revoke Group.Toy.remove_society_admin (Group.Toy.always false) Toy.ann Toy.chess Toy.no_records =
    (inl SystemExit,
     Group.mkWorld ∅
       [Error "Warning: removing the only remaining admin";
        Confirm "Remove Ann from Chess Club?" false]).
Proof. reflexivity. Qed.

Example revoke_one_of_two :
  Group.trace
    (snd (revoke Group.Toy.remove_society_admin (Group.Toy.always true) Toy.ann Toy.rowing Toy.no_records)) =
    [Confirm "Remove Ann from Rowing?" true; RemoveSocietyAdmin Toy.ann Toy.rowing].
Proof. reflexivity. Qed.

Example delete_refused :
  delete Group.Toy.delete_society (Group.Toy.always false) Toy.chess Toy.no_records =
    (inl SystemExit, Group.mkWorld ∅ [Confirm "Delete Chess Club?" false]).
Proof. reflexivity. Qed.

End Examples.

(** * Further properties of the code *)

(** ** The identifier helper on every template *)

Section FormatHelper.

Import PyStr Ident MySQL.

Lemma collect_quote_literal (literals : list string) :
  collect quote_literal literals = inr (map quote_ident literals).
Proof.
  induction literals as [|lit l IH]; [reflexivity|].
  cbn [collect map]. now rewrite quote_literal_ok, IH.
Qed.

Lemma emit_raise (piece : string) (e : exn) : emit piece (inl e) = inl e.
Proof. reflexivity. Qed.

Lemma format_template (first : string) (pieces args : list string) :
  brace_free first = true -> forallb brace_free pieces = true ->
  (length pieces <= length args)%nat ->
  format (template first pieces) args = inr (filled first pieces args).
Proof.
  revert first args. induction pieces as [|p ps IH]; intros first args Hf Hps Hlen.
  - cbn [template filled]. now apply format_brace_free.
  - cbn [forallb] in Hps. apply andb_prop in Hps as [Hp Hps].
    destruct args as [|a args]; [cbn in Hlen; lia|].
    cbn [template filled]. rewrite (format_literal_prefix _ _ _ Hf).
    rewrite !app_cons, app_empty_l. cbn [format]. simpl Ascii.eqb. cbv iota.
    rewrite IH; [reflexivity | exact Hp | exact Hps | cbn in Hlen; lia].
Qed.

Lemma format_template_short (first : string) (pieces args : list string) :
  brace_free first = true -> forallb brace_free pieces = true ->
  (length args < length pieces)%nat ->
  format (template first pieces) args = inl IndexError.
Proof.
  revert first args. induction pieces as [|p ps IH]; intros first args Hf Hps Hlen.
  - cbn in Hlen. lia.
  - cbn [forallb] in Hps. apply andb_prop in Hps as [Hp Hps].
    cbn [template]. rewrite (format_literal_prefix _ _ _ Hf).
    rewrite !app_cons, app_empty_l. cbn [format]. simpl Ascii.eqb. cbv iota.
    destruct args as [|a args]; [reflexivity|].
    rewrite IH; [reflexivity | exact Hp | exact Hps | cbn in Hlen; lia].
Qed.

(** X1.  [_format] quotes every literal and never fails in doing so: its
    result is the template formatted with the quoted literals, so an error
    can only come from the template. *)
Theorem format_quotes_every_literal (sql : string) (literals : list string) :
  _format sql literals = format sql (map quote_ident literals).
Proof. unfold _format. now rewrite collect_quote_literal. Qed.

(** X2.  On a template of brace-free pieces separated by fields, with at
    least as many literals as fields, [_format] returns the pieces with the
    quoted literals between them, in order; literals beyond the last field
    are ignored. *)
Theorem format_fills_fields (first : string) (pieces literals : list string) :
  brace_free first = true -> forallb brace_free pieces = true ->
  (length pieces <= length literals)%nat ->
  _format (template first pieces) literals =
    inr (filled first pieces (map quote_ident literals)).
Proof.
  intros Hf Hps Hlen. unfold _format. rewrite collect_quote_literal.
  apply format_template; [exact Hf | exact Hps | now rewrite length_map].
Qed.

Lemma format_fills_fields_witness :
  _format "SELECT * FROM {}.{} WHERE 1" ["my`db"; "t"; "spare"] =
    inr "SELECT * FROM `my``db`.`t` WHERE 1".
Proof.
  exact (format_fills_fields "SELECT * FROM " ["."; " WHERE 1"]
           ["my`db"; "t"; "spare"] eq_refl eq_refl (le_S _ _ (le_n 2))).
Defined.

(** X3.  With fewer literals than the template has fields, [_format] raises
    IndexError: it never returns a statement with a field left open. *)
Theorem format_too_few_literals (first : string) (pieces literals : list string) :
  brace_free first = true -> forallb brace_free pieces = true ->
  (length literals < length pieces)%nat ->
  _format (template first pieces) literals = inl IndexError.
Proof.
  intros Hf Hps Hlen. unfold _format. rewrite collect_quote_literal.
  apply format_template_short; [exact Hf | exact Hps | now rewrite length_map].
Qed.

Lemma format_too_few_literals_witness :
  _format "GRANT ALL ON {}.{} TO %s" ["db"] = inl IndexError.
Proof.
  exact (format_too_few_literals "GRANT ALL ON " ["."; " TO %s"] ["db"]
           eq_refl eq_refl (le_n 2)).
Defined.

End FormatHelper.

(** ** What quoting does to a name *)

Section QuotedNames.

Import PyStr Ident MySQL.

Lemma length_app_str (a b : string) :
  String.length (a +:+ b) = (String.length a + String.length b)%nat.
Proof.
  induction a as [|c a IH]; [reflexivity|].
  rewrite app_cons. cbn [String.length]. now rewrite IH.
Qed.

Lemma app_cancel_r (a b t : string) : a +:+ t = b +:+ t -> a = b.
Proof.
  revert b. induction a as [|c a IH]; intros [|d b] H.
  - reflexivity.
  - apply (f_equal String.length) in H.
    rewrite app_empty_l, app_cons in H. cbn [String.length] in H.
    rewrite length_app_str in H. lia.
  - apply (f_equal String.length) in H.
    rewrite app_empty_l, app_cons in H. cbn [String.length] in H.
    rewrite length_app_str in H. lia.
  - rewrite !app_cons in H. injection H as -> H. f_equal. now apply IH.
Qed.

Lemma occurrences_app (c : ascii) (a b : string) :
  occurrences c (a +:+ b) = (occurrences c a + occurrences c b)%nat.
Proof.
  induction a as [|d a IH]; [reflexivity|].
  rewrite app_cons. cbn [occurrences]. rewrite IH. lia.
Qed.

Lemma occurrences_replace (c : ascii) (name : string) :
  occurrences c (replace "`" "``" name) =
    if Ascii.eqb c "`" then (2 * occurrences c name)%nat else occurrences c name.
Proof.
  induction name as [|d name IH]; [now destruct (Ascii.eqb c "`")|].
  cbn [replace]. destruct (Ascii.eqb d "`") eqn:Hd.
  - apply Ascii.eqb_eq in Hd. subst d.
    rewrite !app_cons, app_empty_l. cbn [occurrences]. rewrite IH.
    rewrite (Ascii.eqb_sym "`" c). destruct (Ascii.eqb c "`"); lia.
  - cbn [occurrences]. rewrite IH.
    destruct (Ascii.eqb c "`") eqn:Hc; [|reflexivity].
    apply Ascii.eqb_eq in Hc. subst c. rewrite Hd. lia.
Qed.

Lemma length_replace (name : string) :
  String.length (replace "`" "``" name) =
    (String.length name + occurrences "`" name)%nat.
Proof.
  induction name as [|d name IH]; [reflexivity|].
  cbn [replace occurrences]. destruct (Ascii.eqb d "`").
  - rewrite !app_cons, app_empty_l. cbn [String.length]. rewrite IH. lia.
  - cbn [String.length]. rewrite IH. lia.
Qed.

(** X4.  The statement text determines the database name: on a one-field
    template [_format] gives the same text for two names only if they are
    the same name. *)
Theorem format_separates_names (pre post a b : string) :
  brace_free pre = true -> brace_free post = true ->
  _format (pre +:+ "{}" +:+ post) [a] = _format (pre +:+ "{}" +:+ post) [b] ->
  a = b.
Proof.
  intros Hpre Hpost H.
  rewrite !(_format_one_field _ _ _ Hpre Hpost) in H.
  injection H as H. apply String.app_inj in H.
  apply app_cancel_r in H. now apply quote_ident_inj.
Qed.

Lemma format_separates_names_witness :
  _format "DROP DATABASE IF EXISTS {}" ["a`b"] =
    _format "DROP DATABASE IF EXISTS {}" ["a`b"] /\
  "a`b" = "a`b".
Proof.
  split; [reflexivity|].
  exact (format_separates_names "DROP DATABASE IF EXISTS " "" "a`b" "a`b"
           eq_refl eq_refl eq_refl).
Defined.

(** X5.  Quoting changes nothing but backticks: every other character
    occurs in the quoted form as often as in the name, a backtick twice as
    often plus the two that wrap it; the quoted form is longer than the name
    by two plus the number of backticks in it. *)
Theorem quoting_touches_only_backticks (c : ascii) (name : string) :
  occurrences c (quote_ident name) =
    (if Ascii.eqb c "`" then (2 * occurrences c name + 2)%nat
     else occurrences c name) /\
  String.length (quote_ident name) =
    (String.length name + occurrences "`" name + 2)%nat.
Proof.
  unfold quote_ident. split.
  - rewrite !occurrences_app, occurrences_replace. cbn [occurrences].
    rewrite (Ascii.eqb_sym "`" c). destruct (Ascii.eqb c "`"); lia.
  - rewrite !length_app_str, length_replace. cbn [String.length]. lia.
Qed.

(** X6.  Whatever text follows, as long as it does not begin with a
    backtick, the quoted literal produced by [_format] reads back as the
    name and leaves that text untouched. *)
Theorem quoted_literal_reads_back (name rest : string) :
  no_leading_backtick rest = true ->
  exists quoted,
    quote_literal name = inr quoted /\
    lex_quoted_ident (quoted +:+ rest) = Some (name, rest).
Proof.
  intros Hrest. exists (quote_ident name).
  split; [apply quote_literal_ok | now apply lex_quote_ident].
Qed.

Lemma quoted_literal_reads_back_witness :
  exists quoted,
    quote_literal "we`ird" = inr quoted /\
    lex_quoted_ident (quoted +:+ " LIMIT 1") = Some ("we`ird", " LIMIT 1").
Proof. exact (quoted_literal_reads_back "we`ird" " LIMIT 1" eq_refl). Defined.

End QuotedNames.

(** ** More on the manager *)

Section ManagerMore.

Import MySQL.

Context {Conn Rng : Type}.
Variable execute : Conn -> string -> list string -> Z * Conn.
Variable fetch : Conn -> list (list string) * Conn.
Variable Password_new : Rng -> Password * Rng.

Local Abbreviation W := (World Conn Rng).

Lemma list_databases_run (like : string) (w : W) :
  let served := snd (execute (conn w) "SHOW DATABASES LIKE %s" [like]) in
  list_databases execute fetch like w =
    (collect first_column (fst (fetch served)),
     mkWorld (snd (fetch served)) (rng w)
             (trace w ++ query_events "SHOW DATABASES LIKE %s" [ArgStr like])).
Proof.
  cbv zeta. unfold list_databases, bind at 1. rewrite query_run.
  unfold bind, cursor_iter, lift. cbn [conn rng trace map bound_param].
  now destruct (fetch _) as [rows c].
Qed.

Lemma collect_first_column_ok (rows : list (list string)) (names : list string) :
  collect first_column rows = inr names <-> map head rows = map Some names.
Proof.
  revert names. induction rows as [|row rows IH]; intros names.
  - cbn. split.
    + now intros [= <-].
    + destruct names; [reflexivity | discriminate].
  - cbn [collect map]. destruct row as [|c row]; cbn [first_column head].
    + split; [discriminate|]. destruct names; discriminate.
    + destruct (collect first_column rows) as [e|ns] eqn:Hc.
      * split; [discriminate|]. destruct names as [|n names]; [discriminate|].
        cbn [map]. intros [= -> H]. apply IH in H. discriminate H.
      * split.
        -- intros [= <-]. cbn [map]. f_equal. now apply IH.
        -- destruct names as [|n names]; [discriminate|].
           cbn [map]. intros [= -> H]. apply IH in H. congruence.
Qed.

Lemma collect_first_column_raises (rows : list (list string)) (e : exn) :
  collect first_column rows = inl e <-> e = IndexError /\ [] ∈ rows.
Proof.
  induction rows as [|row rows IH].
  - cbn. split; [discriminate|]. intros [_ H]. now apply elem_of_nil in H.
  - cbn [collect]. destruct row as [|c row]; cbn [first_column].
    + split.
      * intros [= <-]. split; [reflexivity|]. apply elem_of_cons. now left.
      * now intros [-> _].
    + destruct (collect first_column rows) as [e'|ns] eqn:Hc.
      * rewrite IH. split; intros [-> Hin]; (split; [reflexivity|]).
        -- apply elem_of_cons. now right.
        -- apply elem_of_cons in Hin as [Hin|Hin]; [discriminate Hin | exact Hin].
      * split; [discriminate|]. intros [-> Hin].
        apply elem_of_cons in Hin as [Hin|Hin]; [discriminate Hin|].
        destruct IH as [_ IH2]. discriminate (IH2 (conj eq_refl Hin)).
Qed.

(** X7.  [list_databases] sends the SHOW statement with the pattern bound,
    then returns the first column of every row the cursor yields, in the
    cursor's order; it raises IndexError exactly when some row is empty, and
    in both cases the cursor has been read. *)
Theorem list_databases_first_columns (like : string) (w : W) :
  let served := snd (execute (conn w) "SHOW DATABASES LIKE %s" [like]) in
  let rows := fst (fetch served) in
  let run := list_databases execute fetch like w in
  (forall names, fst run = inr names <-> map head rows = map Some names) /\
  (forall e, fst run = inl e <-> e = IndexError /\ [] ∈ rows) /\
  conn (snd run) = snd (fetch served) /\
  rng (snd run) = rng w.
Proof.
  cbv zeta. rewrite list_databases_run. cbn [fst snd conn rng].
  split_and!; try reflexivity.
  - intros names. apply collect_first_column_ok.
  - intros e. apply collect_first_column_raises.
Qed.

Lemma call_trace (op : operation) (w : W) :
  exists sql args,
    trace (snd (call execute Password_new op w)) =
      trace w ++ query_events sql args.
Proof.
  destruct op as [name|name|name|user db|user db|name|name]; cbn [call].
  - rewrite create_user_run. now eexists _, _.
  - rewrite reset_password_run. now eexists _, _.
  - rewrite drop_user_run. now eexists _, _.
  - rewrite grant_database_run. now eexists _, _.
  - rewrite revoke_database_run. now eexists _, _.
  - rewrite create_database_run. now eexists _, _.
  - rewrite drop_database_run. now eexists _, _.
Qed.

Lemma logged_first_nil : logged_first [].
Proof. intros i sql params H. discriminate H. Qed.

Lemma logged_first_query (t : list event) (sql : string) (args : list arg) :
  logged_first t -> logged_first (t ++ query_events sql args).
Proof.
  intros Ht i sql' params Hi.
  destruct (decide (i < length t)%nat) as [Hlt|Hge].
  - rewrite lookup_app_l in Hi by exact Hlt.
    destruct (Ht i sql' params Hi) as (j & args' & -> & Hj & Hargs).
    exists j, args'. split_and!; [reflexivity | | exact Hargs].
    rewrite lookup_app_l by lia. exact Hj.
  - rewrite lookup_app_r in Hi by lia.
    destruct (i - length t)%nat as [|[|k]] eqn:Hk; cbn in Hi.
    + discriminate Hi.
    + injection Hi as <- <-. exists (length t), args.
      split_and!; [lia | | reflexivity].
      rewrite lookup_app_r by lia. now rewrite Nat.sub_diag.
    + discriminate Hi.
Qed.

Lemma session_cons (op : operation) (ops : list operation) (w : W) :
  session execute Password_new (op :: ops) w =
    session execute Password_new ops (snd (call execute Password_new op w)).
Proof. reflexivity. Qed.

(** X8.  The debug record always comes first: if every statement in the
    trace so far is directly preceded by the debug record of [query] for the
    same text and arguments, the same holds after any sequence of calls, and
    after [list_databases]. *)
Theorem statements_are_logged_first (ops : list operation) (like : string) (w : W) :
  logged_first (trace w) ->
  logged_first (trace (session execute Password_new ops w)) /\
  logged_first (trace (snd (list_databases execute fetch like w))).
Proof.
  intros Hw. split.
  - revert w Hw. induction ops as [|op ops IH]; intros w Hw; [exact Hw|].
    rewrite session_cons. apply IH.
    destruct (call_trace op w) as (sql & args & ->).
    now apply logged_first_query.
  - rewrite list_databases_trace. now apply logged_first_query.
Qed.

(** X9.  Every call sends exactly one statement, also a call that raises
    or reports unchanged, and what was sent before stays as it was: after a
    sequence of calls the statements are the earlier ones followed by as
    many new ones as there were calls. *)
Theorem one_statement_per_call (ops : list operation) (w : W) :
  exists sent,
    executed (trace (session execute Password_new ops w)) =
      executed (trace w) ++ sent /\
    length sent = length ops.
Proof.
  revert w. induction ops as [|op ops IH]; intros w.
  - exists []. split; [now rewrite app_nil_r | reflexivity].
  - rewrite session_cons.
    destruct (IH (snd (call execute Password_new op w))) as (sent & Hsent & Hlen).
    destruct (call_trace op w) as (sql & args & Hop).
    rewrite Hop, executed_query in Hsent.
    exists ((sql, map bound_param args) :: sent). split.
    + rewrite Hsent. now rewrite <- app_assoc.
    + cbn [length]. now rewrite Hlen.
Qed.

(** X10.  Only [create_user] and [reset_password] draw from the random
    source, and each draws exactly once, also when the result is unchanged
    or the lookup error; every other operation, [list_databases] included,
    leaves the random source as it was. *)
Theorem only_user_operations_draw (op : operation) (like : string) (w : W) :
  rng (snd (call execute Password_new op w)) =
    match op with
    | CreateUser _ | ResetPassword _ => snd (Password_new (rng w))
    | _ => rng w
    end /\
  rng (snd (list_databases execute fetch like w)) = rng w.
Proof.
  split.
  - destruct op as [name|name|name|user db|user db|name|name]; cbn [call].
    + now rewrite create_user_run.
    + now rewrite reset_password_run.
    + now rewrite drop_user_run.
    + now rewrite grant_database_run.
    + now rewrite revoke_database_run.
    + now rewrite create_database_run.
    + now rewrite drop_database_run.
  - now rewrite list_databases_run.
Qed.

(** *** Calls one after the other, on a server that keeps the contracts *)

Variable accounts : Conn -> gmap string string.

(** X11.  After [create_user], whether it created the user or found it,
    [reset_password] for the same name succeeds: it returns the second
    password drawn, and that is the user's password afterwards. *)
Theorem create_then_reset (name : string) (w : W) :
  create_user_contract execute accounts ->
  set_password_contract execute accounts ->
  let second := fst (Password_new (snd (Password_new (rng w)))) in
  let created := create_user execute Password_new name w in
  let reset := reset_password execute Password_new name (snd created) in
  fst reset = inr (mkResult success (Some second)) /\
  accounts (conn (snd reset)) !! name = Some (password_str second).
Proof.
  intros Hcreate Hset. cbv zeta.
  rewrite (reset_password_run _ _ name (snd _)).
  rewrite !create_user_run. cbn [fst snd conn rng].
  set (first := fst (Password_new (rng w))).
  set (second := fst (Password_new (snd (Password_new (rng w))))).
  destruct (create_user_rows execute accounts name (password_str first)
              (conn w) Hcreate) as [Habsent Hpresent].
  set (c1 := snd (execute (conn w) _ [name; password_str first])) in *.
  assert (Hthen : is_Some (accounts c1 !! name)).
  { destruct (accounts (conn w) !! name) as [old|] eqn:Hacc.
    - destruct Hpresent as [_ ->]; [by eexists|]. rewrite Hacc. by eexists.
    - destruct (Habsent eq_refl) as [_ ->]. rewrite lookup_insert_eq. by eexists. }
  destruct (set_password_rows execute accounts name (password_str second) c1 Hset)
    as [_ Hreset].
  destruct (Hreset Hthen) as [Hne Hacc].
  apply Z.eqb_neq in Hne. rewrite Hne, Hacc.
  split; [reflexivity | apply lookup_insert_eq].
Qed.

(** X12.  After [drop_user], whether it dropped the user or found none,
    [reset_password] for the same name raises the lookup error and changes
    no account, and [create_user] for the same name succeeds with the first
    password drawn, the drop having drawn none. *)
Theorem drop_then_reset_or_create (name : string) (w : W) :
  drop_user_contract execute accounts ->
  set_password_contract execute accounts ->
  create_user_contract execute accounts ->
  let passwd := fst (Password_new (rng w)) in
  let dropped := drop_user (T:=Password) execute name w in
  let reset := reset_password execute Password_new name (snd dropped) in
  let created := create_user execute Password_new name (snd dropped) in
  fst reset = inl (LookupError "No MySQL user {!r} to reset password" name) /\
  accounts (conn (snd reset)) = accounts (conn (snd dropped)) /\
  fst created = inr (mkResult success (Some passwd)) /\
  accounts (conn (snd created)) !! name = Some (password_str passwd).
Proof.
  intros Hdrop Hset Hcreate. cbv zeta.
  rewrite (reset_password_run _ _ name (snd _)).
  rewrite (create_user_run _ _ name (snd _)).
  rewrite !drop_user_run. cbn [fst snd conn rng].
  set (passwd := fst (Password_new (rng w))).
  destruct (drop_user_rows execute accounts name (conn w) Hdrop)
    as [Habsent Hpresent].
  set (c1 := snd (execute (conn w) _ [name])) in *.
  assert (Hgone : accounts c1 !! name = None).
  { destruct (accounts (conn w) !! name) as [old|] eqn:Hacc.
    - destruct Hpresent as [_ ->]; [by eexists|]. apply lookup_delete_eq.
    - destruct (Habsent eq_refl) as [_ ->]. exact Hacc. }
  destruct (set_password_rows execute accounts name (password_str passwd) c1 Hset)
    as [Hreset _].
  destruct (Hreset Hgone) as [Hz Hsame].
  destruct (create_user_rows execute accounts name (password_str passwd) c1 Hcreate)
    as [Hnew _].
  destruct (Hnew Hgone) as [Hne Hacc].
  apply Z.eqb_neq in Hne. rewrite Hz, Hne, Hacc.
  split_and!; try reflexivity; [exact Hsame | apply lookup_insert_eq].
Qed.

End ManagerMore.

Section ToySessions.

Import MySQL.

Lemma statements_are_logged_first_witness :
  logged_first (trace Toy.start) /\
  logged_first
    (trace (session Toy.execute Toy.Password_new
              [CreateUser "alice"; ResetPassword "bob"; DropDatabase "x`y"]
              Toy.start)) /\
  logged_first (trace (snd (list_databases Toy.execute Toy.fetch "%" Toy.start))).
Proof.
  split; [exact logged_first_nil|].
  exact (statements_are_logged_first Toy.execute Toy.fetch Toy.Password_new
           [CreateUser "alice"; ResetPassword "bob"; DropDatabase "x`y"] "%"
           Toy.start logged_first_nil).
Defined.

(** Alice is created with the first password and reset to the second. *)
Lemma create_then_reset_witness :
  create_user_contract Toy.execute Toy.accounts /\
  set_password_contract Toy.execute Toy.accounts /\
  fst (reset_password Toy.execute Toy.Password_new "alice"
         (snd (create_user Toy.execute Toy.Password_new "alice" Toy.start))) =
    inr (mkResult success (Some (mkPassword "xx"))).
Proof.
  split; [exact toy_create_user_contract|].
  split; [exact toy_set_password_contract|].
  exact (proj1 (create_then_reset Toy.execute Toy.Password_new Toy.accounts
                  "alice" Toy.start
                  toy_create_user_contract toy_set_password_contract)).
Defined.

(** Alice is dropped; resetting her then raises, creating her succeeds. *)
Lemma drop_then_reset_or_create_witness :
  drop_user_contract Toy.execute Toy.accounts /\
  set_password_contract Toy.execute Toy.accounts /\
  create_user_contract Toy.execute Toy.accounts /\
  fst (reset_password Toy.execute Toy.Password_new "alice"
         (snd (drop_user (T:=Password) Toy.execute "alice" Toy.with_alice))) =
    inl (LookupError "No MySQL user {!r} to reset password" "alice") /\
  fst (create_user Toy.execute Toy.Password_new "alice"
         (snd (drop_user (T:=Password) Toy.execute "alice" Toy.with_alice))) =
    inr (mkResult success (Some (mkPassword "x"))).
Proof.
  split; [exact toy_drop_user_contract|].
  split; [exact toy_set_password_contract|].
  split; [exact toy_create_user_contract|].
  pose proof (drop_then_reset_or_create Toy.execute Toy.Password_new Toy.accounts
                "alice" Toy.with_alice toy_drop_user_contract
                toy_set_password_contract toy_create_user_contract) as H.
  cbv zeta in H. destruct H as (Hreset & _ & Hcreated & _).
  split; [exact Hreset | exact Hcreated].
Defined.

End ToySessions.

(** ** More on the scripts *)

Section ScriptsMore.

Import Group.

Context {Store : Type}.
Variable add_society_admin : Store -> Member -> Society -> Store.
Variable remove_society_admin : Store -> Member -> Society -> Store.
Variable delete_society : Store -> Society -> Store.
Variable operator : list event -> string -> bool.

Local Abbreviation W := (World Store).

(** X13.  The delete script prints no warning: it prompts once with the
    society's description, whatever characters that holds, and calls
    [delete_society] exactly when the operator accepts; otherwise it aborts
    and the store is as it was. *)
Theorem delete_asks_then_deletes (soc : Society) (w : W) :
  let prompt := "Delete " +:+ description soc +:+ "?" in
  let answer := operator (trace w) prompt in
  let run := delete delete_society operator soc w in
  trace (snd run) =
    trace w ++ Confirm prompt answer :: (if answer then [DeleteSociety soc] else []) /\
  fst run = (if answer then inr tt else inl SystemExit) /\
  store (snd run) = (if answer then delete_society (store w) soc else store w).
Proof.
  cbv zeta. rewrite delete_run. unfold confirmed_step.
  cbn [fst snd trace store app]. now rewrite app_nil_r.
Qed.

(** X14.  Which warning the revoke script prints: the not-an-admin warning
    when the member's crsid is not among the admins (also when there are no
    admins at all), the only-remaining-admin warning when the admins are
    exactly that member, and none when the member is one of several admins;
    in each case the prompt is the next event. *)
Theorem revoke_warning_cases (member : Member) (soc : Society) (w : W) :
  let run := revoke remove_society_admin operator member soc w in
  (crsid member ∉ admin_crsids soc ->
     exists prompt answer rest,
       trace (snd run) =
         trace w ++
           Error ("Warning: " +:+ crsid member +:+ " is not an admin of "
                  +:+ society soc)
           :: Confirm prompt answer :: rest) /\
  (admin_crsids soc = {[ crsid member ]} ->
     exists prompt answer rest,
       trace (snd run) =
         trace w ++
           Error "Warning: removing the only remaining admin"
           :: Confirm prompt answer :: rest) /\
  (crsid member ∈ admin_crsids soc -> admin_crsids soc <> {[ crsid member ]} ->
     exists prompt answer rest,
       trace (snd run) = trace w ++ Confirm prompt answer :: rest).
Proof.
  cbv zeta. rewrite revoke_run. unfold confirmed_step, revoke_warning.
  cbn [snd trace]. split_and!.
  - intros Hout. rewrite decide_True by exact Hout. now eexists _, _, _.
  - intros Hsole.
    rewrite decide_False
      by (intros Hout; apply Hout; rewrite Hsole; now apply elem_of_singleton).
    rewrite decide_True by exact Hsole. now eexists _, _, _.
  - intros Hin Hmore. rewrite decide_False by (intros Hout; now apply Hout).
    rewrite decide_False by exact Hmore. now eexists _, _, _.
Qed.

Lemma filter_warnings (p : event -> bool) (shown : list event) :
  (forall msg, p (Error msg) = false) ->
  Forall (fun ev => is_warning ev = true) shown ->
  List.filter p shown = [].
Proof.
  intros Hp Hshown. induction Hshown as [|ev l Hev Hl IH]; [reflexivity|].
  destruct ev; try discriminate Hev. cbn [List.filter]. now rewrite Hp, IH.
Qed.

Lemma confirmed_step_asks_once (w : W) (shown : list event) (prompt : string)
    (mutation : event) (st : Store) :
  Forall (fun ev => is_warning ev = true) shown ->
  is_mutation mutation = true -> is_prompt mutation = false ->
  asks_once w (confirmed_step operator w shown prompt mutation st).
Proof.
  intros Hshown Hmut Hnot. unfold asks_once, events_of, confirmed_step.
  cbn [fst snd trace]. rewrite drop_app_length.
  rewrite !List.filter_app.
  rewrite (filter_warnings is_prompt shown), (filter_warnings is_mutation shown)
    by (reflexivity || exact Hshown).
  cbn [app List.filter is_prompt is_mutation].
  destruct (operator _ _); cbn [List.filter length].
  - rewrite Hmut, Hnot. cbn [length]. split_and!; [reflexivity | lia | now split].
  - split_and!; [reflexivity | lia | split; discriminate].
Qed.

(** X15.  Each run of a script prompts exactly once and calls the
    membership collaborator at most once: once when the run returns
    normally, never when it aborts. *)
Theorem scripts_ask_once (member : Member) (soc : Society) (w : W) :
  asks_once w (grant add_society_admin operator member soc w) /\
  asks_once w (revoke remove_society_admin operator member soc w) /\
  asks_once w (delete delete_society operator soc w).
Proof.
  rewrite grant_run, revoke_run, delete_run.
  split_and!; apply confirmed_step_asks_once; try reflexivity.
  - apply grant_warning_shape.
  - apply revoke_warning_shape.
  - constructor.
Qed.

End ScriptsMore.
